(** * BattleforFun mini app: the grid-combat engines of [Game.tsx] and [Game2.tsx]

    A shallow embedding of the game logic of the three React components of
    the repository, and the properties of the engine specification that
    they decide:

    - [TimeDriven]: the first component of [src/pages/Game2.tsx]
      ("Tactical Wars": action points recovered on a clock, gold, bases);
    - [TurnDriven]: [src/pages/Game.tsx] (10x10 board, one move and one
      attack per unit and turn);
    - [CityCapture]: the second component of [src/pages/Game2.tsx] (20x20
      board, the turn-driven rules extended with cities and capture).

    Conventions of the embedding.
    - A React component's state is a record; an event handler is a function
      from the state (and the event's arguments) to the state the component
      has once the handler's [set...] calls are applied.
    - JavaScript numbers: [Z] where the program only ever holds integers
      (coordinates, ranges, action points, timestamps, hit points of
      [Game2.tsx]); IEEE 754 doubles, with their rounding, where the
      time-driven engine divides and multiplies hit points
      ([Js.Double], the damage of [performAttack]); [Q], exact
      arithmetic, for the damage formula of the turn-driven engines and
      the health it is subtracted from.
    - Reading a property of [undefined] throws a [TypeError]; this is the
      [Fail TypeError] outcome of the [result] monad below. *)

From Stdlib Require Import ZArith QArith Qminmax Qround Lia Lqa SpecFloat.
From stdpp Require Import base tactics option list gmap strings.

Open Scope Z_scope.

(** ** JavaScript conventions *)

Module Js.

Inductive failure : Type :=
| TypeError     (* a property of [undefined] is read or written *)
| Unmodelled    (* a value the model has no term for: an array grown by
                   a write past its end, an object spread from [null] *)
| OutOfFuel.    (* the bound of a modelled [while] loop is exhausted *)

Inductive result (A : Type) : Type :=
| Ok (a : A)
| Fail (e : failure).
Arguments Ok {A} a.
Arguments Fail {A} e.

#[global] Instance result_ret : MRet result := λ A a, Ok a.
#[global] Instance result_bind : MBind result := λ A B f m,
  match m with
  | Ok a => f a
  | Fail e => Fail e
  end.

(** [o.p] for an [o] that may be [undefined]. *)
Definition defined {A} (o : option A) : result A :=
  match o with
  | Some a => Ok a
  | None => Fail TypeError
  end.

(** [a[i]] for a number [i]: [undefined] outside [0, a.length). *)
Definition index {A} (a : list A) (i : Z) : option A :=
  if 0 <=? i then a !! Z.to_nat i else None.

(** [a[y][x]]: throws when the row [a[y]] is [undefined]. *)
Definition index2 {A} (a : list (list A)) (x y : Z) : result (option A) :=
  row ← defined (index a y);
  Ok (index row x).

(** [a[y][x] = v] on an array of rows.  Writing past the end of a row
    would grow it in JavaScript; the engine never does on a board of the
    declared size, and the model stops there. *)
Definition assign2 {A} (a : list (list A)) (x y : Z) (v : A)
  : result (list (list A)) :=
  row ← defined (index a y);
  if (0 <=? x) && (x <? Z.of_nat (length row))
  then Ok (<[Z.to_nat y := <[Z.to_nat x := v]> row]> a)
  else Fail Unmodelled.

(** [for (const b of l) { a = f(a, b) }] where [f] may throw. *)
Fixpoint foldlM {A B} (f : A → B → result A) (l : list B) (a : A)
  : result A :=
  match l with
  | [] => Ok a
  | b :: l' => a' ← f a b; foldlM f l' a'
  end.

(** [Array(h).fill(null).map(() => Array(w).fill(v))] *)
Definition filled {A} (w h : Z) (v : A) : list (list A) :=
  replicate (Z.to_nat h) (replicate (Z.to_nat w) v).

(** A numeric property of an object that may lack it.  Reading an absent
    property gives [undefined]; arithmetic on [undefined] gives [NaN],
    and so does arithmetic on [NaN]; every comparison with either is
    false. *)
Inductive numeric := Undefined | Num (n : Z) | NaN.

(** [a + k], also the value [a += k] stores *)
Definition incr (a : numeric) (k : Z) : numeric :=
  match a with
  | Num n => Num (n + k)
  | Undefined | NaN => NaN
  end.

(** [a >= k] *)
Definition atLeast (a : numeric) (k : Z) : bool :=
  match a with
  | Num n => k <=? n
  | Undefined | NaN => false
  end.

(** [a > k] *)
Definition above (a : numeric) (k : Z) : bool :=
  match a with
  | Num n => k <? n
  | Undefined | NaN => false
  end.

(** The integers [lo, lo+1, ..., hi] of a counting [for] loop. *)
Definition range (lo hi : Z) : list Z :=
  (λ i : nat, lo + Z.of_nat i) <$> seq 0 (Z.to_nat (hi + 1 - lo)).

(** A number that need not be an integer is an IEEE 754 binary64: 53
    bits of precision, every operation rounded to nearest, ties to even.
    The arithmetic is that of [SpecFloat]. *)
Module Double.

Definition double : Type := spec_float.
Definition prec : Z := 53.
Definition emax : Z := 1024.

(** The value of an integer literal or of a property that holds an
    integer. *)
Definition ofZ (n : Z) : double := binary_normalize prec emax n 0 false.

Definition add : double → double → double := SFadd prec emax.
Definition sub : double → double → double := SFsub prec emax.
Definition mul : double → double → double := SFmul prec emax.
Definition div : double → double → double := SFdiv prec emax.

(** [Math.floor] of a finite number; [None] for an infinity and for
    [NaN], which it returns as they are. *)
Definition floor (d : double) : option Z :=
  match d with
  | S754_zero _ => Some 0
  | S754_finite s m e =>
    let n := if s then Z.neg m else Z.pos m in
    Some (if 0 <=? e then n * 2 ^ e else n / 2 ^ (- e))
  | S754_infinity _ | S754_nan => None
  end.

End Double.

End Js.
Import Js.

(** ** The time-driven engine: first component of [Game2.tsx] *)

Module TimeDriven.

Inductive TerrainType := plain | forest | mountain | city | base.
Inductive UnitName := infantry | tank | artillery.
(** [type UnitType = 'infantry' | 'tank' | 'artillery' | null] *)
Definition UnitType := option UnitName.
Inductive Player := P1 | P2.

#[global] Instance TerrainType_eq_dec : EqDecision TerrainType.
Proof. solve_decision. Defined.
#[global] Instance UnitName_eq_dec : EqDecision UnitName.
Proof. solve_decision. Defined.
#[global] Instance Player_eq_dec : EqDecision Player.
Proof. solve_decision. Defined.

Record Unit := mkUnit { type : UnitType; player : Player; hp : Z }.
Record Tile := mkTile
  { terrain : TerrainType; unit : option Unit; owner : option Player }.
Record UnitStats := mkStats
  { cost : Z; movement : Z; minRange : Z; maxRange : Z;
    attack : Z; defense : Z }.

Abbreviation Grid := (list (list Tile)).

Definition UNIT_STATS (n : UnitName) : UnitStats :=
  match n with
  | infantry => mkStats 1000 3 1 1 55 50
  | tank => mkStats 7000 6 1 1 85 70
  | artillery => mkStats 6000 5 2 3 90 40
  end.

Definition TERRAIN_DEFENSE (t : TerrainType) : Z :=
  match t with
  | plain => 0
  | forest => 20
  | mountain => 30
  | city => 30
  | base => 30
  end.

Definition MAX_ACTION_POINTS : Z := 10.
Definition AP_RECOVERY_INTERVAL : Z := 60000.

Record Size := mkSize { width : Z; height : Z }.
Definition gridSize : Size := mkSize 12 10.

(** [grid[y][x]] followed by a property read. *)
Definition tileAt (grid : Grid) (x y : Z) : result Tile :=
  o ← index2 grid x y; defined o.

Record QueueItem := mkItem { qx : Z; qy : Z; movesLeft : Z }.

Definition directions : list (Z * Z) := [(-1, 0); (1, 0); (0, -1); (0, 1)].

Definition inBounds (sz : Size) (x y : Z) : bool :=
  (0 <=? x) && (x <? width sz) && (0 <=? y) && (y <? height sz).

(** [!t.unit || t.unit.player === unit.player] *)
Definition passable (u : Unit) (t : Tile) : bool :=
  match unit t with
  | None => true
  | Some o => bool_decide (player o = player u)
  end.

Definition moveCost (t : Tile) : Z :=
  if decide (terrain t = mountain) then 2 else 1.

(** [Record<Player, T>] *)
Record PerPlayer (A : Type) := mkPer { forP1 : A; forP2 : A }.
Arguments mkPer {A}.
Arguments forP1 {A}.
Arguments forP2 {A}.

Definition get {A} (r : PerPlayer A) (p : Player) : A :=
  match p with P1 => forP1 r | P2 => forP2 r end.
Definition set {A} (r : PerPlayer A) (p : Player) (v : A) : PerPlayer A :=
  match p with P1 => mkPer v (forP2 r) | P2 => mkPer (forP1 r) v end.

(** The [useState] cells of the component. *)
Record State := mkState
  { grid : Grid;
    actionPoints : PerPlayer Z;
    selectedCell : option (Z * Z);
    validMoves : list (list bool);
    validAttacks : list (list bool);
    gold : PerPlayer Z;
    showBuyMenu : bool;
    buyMenuCell : option (Z * Z);
    currentPlayer : Player;
    lastApRecovery : PerPlayer Z;
    timeUntilNextAP : PerPlayer Z }.

Definition setGrid (g : Grid) (s : State) : State :=
  mkState g (actionPoints s) (selectedCell s) (validMoves s)
    (validAttacks s) (gold s) (showBuyMenu s) (buyMenuCell s)
    (currentPlayer s) (lastApRecovery s) (timeUntilNextAP s).
Definition setActionPoints (a : PerPlayer Z) (s : State) : State :=
  mkState (grid s) a (selectedCell s) (validMoves s)
    (validAttacks s) (gold s) (showBuyMenu s) (buyMenuCell s)
    (currentPlayer s) (lastApRecovery s) (timeUntilNextAP s).
(** [setSelectedCell(c); setValidMoves(m); setValidAttacks(a)] *)
Definition setSelection (c : option (Z * Z)) (m a : list (list bool))
    (s : State) : State :=
  mkState (grid s) (actionPoints s) c m a (gold s) (showBuyMenu s)
    (buyMenuCell s) (currentPlayer s) (lastApRecovery s)
    (timeUntilNextAP s).
Definition setGold (g : PerPlayer Z) (s : State) : State :=
  mkState (grid s) (actionPoints s) (selectedCell s) (validMoves s)
    (validAttacks s) g (showBuyMenu s) (buyMenuCell s)
    (currentPlayer s) (lastApRecovery s) (timeUntilNextAP s).
(** [setShowBuyMenu(b); setBuyMenuCell(c)] *)
Definition setBuyMenu (b : bool) (c : option (Z * Z)) (s : State) : State :=
  mkState (grid s) (actionPoints s) (selectedCell s) (validMoves s)
    (validAttacks s) (gold s) b c
    (currentPlayer s) (lastApRecovery s) (timeUntilNextAP s).
Definition setCurrentPlayer (p : Player) (s : State) : State :=
  mkState (grid s) (actionPoints s) (selectedCell s) (validMoves s)
    (validAttacks s) (gold s) (showBuyMenu s) (buyMenuCell s)
    p (lastApRecovery s) (timeUntilNextAP s).
Definition setLastApRecovery (l : PerPlayer Z) (s : State) : State :=
  mkState (grid s) (actionPoints s) (selectedCell s) (validMoves s)
    (validAttacks s) (gold s) (showBuyMenu s) (buyMenuCell s)
    (currentPlayer s) l (timeUntilNextAP s).
Definition setTimeUntilNextAP (t : PerPlayer Z) (s : State) : State :=
  mkState (grid s) (actionPoints s) (selectedCell s) (validMoves s)
    (validAttacks s) (gold s) (showBuyMenu s) (buyMenuCell s)
    (currentPlayer s) (lastApRecovery s) t.

(** [initializeGrid]: the two [Math.random()] draws of each cell are the
    oracles [isForest] and [isMountain]. *)
Definition initialTile (isForest isMountain : Z → Z → bool) (x y : Z)
  : Tile :=
  let terrain0 := if isForest x y then forest else plain in
  let terrain1 := if isMountain x y then mountain else terrain0 in
  let isBase := bool_decide (x = 2 ∧ y = 2) || bool_decide (x = 9 ∧ y = 7) in
  let terrain2 := if isBase then base else terrain1 in
  let owner2 :=
    if isBase then Some (if bool_decide (x = 2) then P1 else P2) else None in
  let terrain3 :=
    if bool_decide (x = 4 ∧ y = 4) || bool_decide (x = 7 ∧ y = 5)
    then city else terrain2 in
  let unit1 :=
    if bool_decide (x = 2 ∧ y = 2)
    then Some (mkUnit (Some infantry) P1 100) else None in
  let unit2 :=
    if bool_decide (x = 9 ∧ y = 7)
    then Some (mkUnit (Some infantry) P2 100) else unit1 in
  mkTile terrain3 unit2 owner2.

Definition initializeGrid (sz : Size) (isForest isMountain : Z → Z → bool)
  : Grid :=
  (λ y, (λ x, initialTile isForest isMountain x y)
          <$> range 0 (width sz - 1))
    <$> range 0 (height sz - 1).

(** The state after the first render and [initializeGrid]; [now] is the
    value of [Date.now()] at mount. *)
Definition initialState (g : Grid) (now : Z) : State :=
  mkState g (mkPer 10 10) None [] [] (mkPer 10000 10000) false None P1
    (mkPer now now) (mkPer 60 60).

(** The expression bound to [damage] in [performAttack], operation by
    operation in double arithmetic.  [Math.max(1, Math.floor(d))] of a
    finite [d] is an integer; an infinite or undefined damage is left
    out of the model. *)
Definition attackDamage (attackerStats defenderStats : UnitStats)
    (attacker defender : Unit) (terrainDefense : Z) : result Z :=
  let num := Double.ofZ in
  let inflicted :=
    Double.mul (num (attack attackerStats))
      (Double.div (num (hp attacker)) (num 100)) in
  let absorbed :=
    Double.div
      (Double.mul
         (Double.mul (num (defense defenderStats))
            (Double.div (num (hp defender)) (num 100)))
         (Double.add (num 1) (Double.div (num terrainDefense) (num 100))))
      (num 2) in
  match Double.floor (Double.sub inflicted absorbed) with
  | Some n => Ok (Z.max 1 n)
  | None => Fail Unmodelled
  end.

(** The events of the component: clicks on the board and on the buttons,
    and the one-second interval of the recovery effect with the value of
    [Date.now()] it reads.  (The income effect only writes [gold].) *)
Inductive Event :=
| CellClick (x y : Z)
| BuyUnit (t : UnitType)
| CancelBuy
| SwitchPlayer
| RecoveryTick (now : Z).

Section Engine.
(** [UNIT_STATS] and [gridSize] are constants of the component; the
    functions are written over them as section variables so that they
    can be stated for every catalogue and instantiated below. *)
Variable STATS : UnitName → UnitStats.
Variable sz : Size.

(** [UNIT_STATS[unit.type!]] followed by a property read. *)
Definition statsOf (t : UnitType) : result UnitStats :=
  n ← defined t; Ok (STATS n).

Definition blank : list (list bool) := filled (width sz) (height sz) false.

(** The body of [for (const [dx, dy] of directions)]. *)
Definition visitNeighbour (grid : Grid) (u : Unit) (current : QueueItem)
    (acc : list (list bool) * list QueueItem) (d : Z * Z)
  : result (list (list bool) * list QueueItem) :=
  let '(visited, queue) := acc in
  let nx := qx current + d.1 in
  let ny := qy current + d.2 in
  if inBounds sz nx ny then
    seen ← index2 visited nx ny;
    if negb (default false seen) then
      targetTile ← tileAt grid nx ny;
      if passable u targetTile then
        let newMovesLeft := movesLeft current - moveCost targetTile in
        if 0 <=? newMovesLeft then
          visited' ← assign2 visited nx ny true;
          Ok (visited', queue ++ [mkItem nx ny newMovesLeft])
        else Ok acc
      else Ok acc
    else Ok acc
  else Ok acc.

(** [while (queue.length > 0) { ... }]; one unit of [fuel] per
    iteration. *)
Fixpoint searchLoop (fuel : nat) (grid : Grid) (u : Unit)
    (moves visited : list (list bool)) (queue : list QueueItem)
  : result (list (list bool)) :=
  match queue with
  | [] => Ok moves
  | current :: rest =>
    match fuel with
    | O => Fail OutOfFuel
    | S fuel' =>
      moves' ← assign2 moves (qx current) (qy current) true;
      '(visited', queue') ←
        foldlM (visitNeighbour grid u current) directions (visited, rest);
      searchLoop fuel' grid u moves' visited' queue'
    end
  end.

Definition searchFuel : nat := Z.to_nat (width sz * height sz).

Definition calculateValidMoves (grid : Grid) (x y : Z)
  : result (list (list bool)) :=
  t ← tileAt grid x y;
  match unit t with
  | None => Ok blank
  | Some u =>
    stats ← statsOf (type u);
    visited ← assign2 blank x y true;
    searchLoop searchFuel grid u blank visited [mkItem x y (movement stats)]
  end.

Definition distance (x y tx ty : Z) : Z := Z.abs (tx - x) + Z.abs (ty - y).

(** [distance >= minRange && distance <= maxRange && targetUnit &&
    targetUnit.player !== unit.player] *)
Definition isTarget (stats : UnitStats) (u : Unit) (x y tx ty : Z)
    (t : Tile) : bool :=
  (minRange stats <=? distance x y tx ty)
  && (distance x y tx ty <=? maxRange stats)
  && match unit t with
     | None => false
     | Some o => negb (bool_decide (player o = player u))
     end.

(** The two nested [for] loops of [calculateValidAttacks], row by row. *)
Definition scanRow (grid : Grid) (stats : UnitStats) (u : Unit)
    (x y : Z) (attacks : list (list bool)) (ty : Z)
  : result (list (list bool)) :=
  foldlM (λ attacks tx,
            t ← tileAt grid tx ty;
            if isTarget stats u x y tx ty t
            then assign2 attacks tx ty true
            else Ok attacks)
         (range 0 (width sz - 1)) attacks.

Definition calculateValidAttacks (grid : Grid) (x y : Z)
  : result (list (list bool)) :=
  t ← tileAt grid x y;
  match unit t with
  | None => Ok blank
  | Some u =>
    stats ← statsOf (type u);
    foldlM (scanRow grid stats u x y) (range 0 (height sz - 1)) blank
  end.

(** [moveUnit] is only called with a unit on the source tile
    ([handleCellClick] tests [selectedUnit?.player]); from an empty
    tile JavaScript would spread [null] into an empty object. *)
Definition moveUnit (grid : Grid) (fromX fromY toX toY : Z)
  : result Grid :=
  from ← tileAt grid fromX fromY;
  match unit from with
  | None => Fail Unmodelled
  | Some u =>
    to ← tileAt grid toX toY;
    grid1 ← assign2 grid toX toY (mkTile (terrain to) (Some u) (owner to));
    from1 ← tileAt grid1 fromX fromY;
    grid2 ← assign2 grid1 fromX fromY
              (mkTile (terrain from1) None (owner from1));
    to2 ← tileAt grid2 toX toY;
    if bool_decide (terrain to2 = city)
       && negb (bool_decide (owner to2 = Some (player u)))
    then assign2 grid2 toX toY
           (mkTile (terrain to2) (unit to2) (Some (player u)))
    else Ok grid2
  end.

Definition performAttack (grid : Grid) (fromX fromY toX toY : Z)
  : result Grid :=
  from ← tileAt grid fromX fromY;
  to ← tileAt grid toX toY;
  attacker ← defined (unit from);
  attackerStats ← statsOf (type attacker);
  defender ← defined (unit to);
  defenderStats ← statsOf (type defender);
  let terrainDefense := TERRAIN_DEFENSE (terrain to) in
  damage ← attackDamage attackerStats defenderStats attacker defender
             terrainDefense;
  let hp' := Z.max 0 (hp defender - damage) in
  let defender' := mkUnit (type defender) (player defender) hp' in
  assign2 grid toX toY
    (mkTile (terrain to)
       (if hp' <=? 0 then None else Some defender') (owner to)).

Definition clearSelection (s : State) : State := setSelection None [] [] s.

(** [actionPoints[currentPlayer] >= 1] guards the action [act] on the
    grid; the selection is cleared in either case. *)
Definition spendActionPoint (s : State) (act : result Grid)
  : result State :=
  let ap := get (actionPoints s) (currentPlayer s) in
  if 1 <=? ap then
    grid' ← act;
    Ok (clearSelection
          (setActionPoints (set (actionPoints s) (currentPlayer s) (ap - 1))
             (setGrid grid' s)))
  else Ok (clearSelection s).

(** [selectedUnit?.player === currentPlayer] *)
Definition ownsUnit (s : State) (o : option Unit) : bool :=
  match o with
  | None => false
  | Some u => bool_decide (player u = currentPlayer s)
  end.

(** The last statement of [handleCellClick]. *)
Definition selectClicked (s : State) (clickedTile : Tile) (x y : Z)
  : result State :=
  match unit clickedTile with
  | None => Ok s
  | Some _ =>
    moves ← calculateValidMoves (grid s) x y;
    attacks ← calculateValidAttacks (grid s) x y;
    Ok (setSelection (Some (x, y)) moves attacks s)
  end.

Definition handleCellClick (s : State) (x y : Z) : result State :=
  clicked ← index2 (grid s) x y;
  if showBuyMenu s then Ok (setBuyMenu false None s)
  else
    clickedTile ← defined clicked;
    if bool_decide (terrain clickedTile = base)
       && bool_decide (owner clickedTile = Some (currentPlayer s))
       && bool_decide (unit clickedTile = None)
    then Ok (setBuyMenu true (Some (x, y)) s)
    else
      match selectedCell s with
      | None => selectClicked s clickedTile x y
      | Some (sx, sy) =>
        selectedTile ← tileAt (grid s) sx sy;
        let selectedUnit := unit selectedTile in
        canMove ← index2 (validMoves s) x y;
        if default false canMove
           && bool_decide (unit clickedTile = None)
           && ownsUnit s selectedUnit
        then spendActionPoint s (moveUnit (grid s) sx sy x y)
        else
          canAttack ← index2 (validAttacks s) x y;
          if default false canAttack && ownsUnit s selectedUnit
          then spendActionPoint s (performAttack (grid s) sx sy x y)
          else selectClicked (clearSelection s) clickedTile x y
      end.

Definition buyUnit (s : State) (unitType : UnitType) : result State :=
  match buyMenuCell s, unitType with
  | Some (bx, by_), Some n =>
    let cost := cost (STATS n) in
    if get (gold s) (currentPlayer s) <? cost then Ok s
    else
      t ← tileAt (grid s) bx by_;
      grid' ← assign2 (grid s) bx by_
                (mkTile (terrain t)
                   (Some (mkUnit (Some n) (currentPlayer s) 100))
                   (owner t));
      Ok (setBuyMenu false None
            (setGold (set (gold s) (currentPlayer s)
                        (get (gold s) (currentPlayer s) - cost))
               (setGrid grid' s)))
  | _, _ => Ok s
  end.

Definition switchPlayer (s : State) : State :=
  clearSelection
    (setCurrentPlayer
       (match currentPlayer s with P1 => P2 | P2 => P1 end) s).

(** [Math.ceil(n / 1000)] for an integer [n]. *)
Definition ceilSeconds (n : Z) : Z := - ((- n) / 1000).

(** The body of the [forEach] of the recovery effect; the accumulator is
    [(newActionPoints, newLastApRecovery, newTimeUntilNextAP, updated)]. *)
Definition recoverPlayer (s : State) (now : Z)
    (acc : PerPlayer Z * PerPlayer Z * PerPlayer Z * bool) (p : Player)
  : PerPlayer Z * PerPlayer Z * PerPlayer Z * bool :=
  let '(newActionPoints, newLastApRecovery, newTimeUntilNextAP, updated)
    := acc in
  let timeSinceLastRecovery := now - get (lastApRecovery s) p in
  let '(newActionPoints, newLastApRecovery, updated) :=
    if (AP_RECOVERY_INTERVAL <=? timeSinceLastRecovery)
       && (get newActionPoints p <? MAX_ACTION_POINTS)
    then (set newActionPoints p
            (Z.min MAX_ACTION_POINTS (get newActionPoints p + 1)),
          set newLastApRecovery p now, true)
    else (newActionPoints, newLastApRecovery, updated) in
  let timeLeft :=
    ceilSeconds (AP_RECOVERY_INTERVAL - (now - get newLastApRecovery p)) in
  (newActionPoints, newLastApRecovery,
   set newTimeUntilNextAP p timeLeft, updated).

(** The callback of [setInterval] in the recovery effect. *)
Definition recoveryTick (s : State) (now : Z) : State :=
  let '(newActionPoints, newLastApRecovery, newTimeUntilNextAP, updated) :=
    foldl (recoverPlayer s now)
      (actionPoints s, lastApRecovery s, timeUntilNextAP s, false)
      [P1; P2] in
  let s1 := setTimeUntilNextAP newTimeUntilNextAP s in
  if updated
  then setLastApRecovery newLastApRecovery
         (setActionPoints newActionPoints s1)
  else s1.

Definition step (s : State) (e : Event) : result State :=
  match e with
  | CellClick x y => handleCellClick s x y
  | BuyUnit t => buyUnit s t
  | CancelBuy => Ok (setBuyMenu false None s)
  | SwitchPlayer => Ok (switchPlayer s)
  | RecoveryTick now => Ok (recoveryTick s now)
  end.

Definition run (s : State) (events : list Event) : result State :=
  foldlM step events s.

End Engine.

End TimeDriven.

(** ** The turn-driven engine: [Game.tsx]

    The second component of [Game2.tsx] repeats these definitions on a
    20x20 board and adds cities ([CityCapture] below); [GRID_SIZE] is
    therefore a section variable, and [Terrain] carries the fields of its
    [City] extension, which [Game.tsx] does not have and never reads. *)

Module TurnDriven.

Module Board.

Inductive UnitType := Infantry | Tank | Artillery | APC.
Inductive TerrainType := Plain | Mountain | Forest | City | Road.
Inductive Player := Red | Blue.

#[global] Instance UnitType_eq_dec : EqDecision UnitType.
Proof. solve_decision. Defined.
#[global] Instance TerrainType_eq_dec : EqDecision TerrainType.
Proof. solve_decision. Defined.
#[global] Instance Player_eq_dec : EqDecision Player.
Proof. solve_decision. Defined.

Record Unit := mkUnit
  { id : string;
    type : UnitType;
    health : Q;
    attack : Q;
    defense : Q;
    moveRange : Z;
    attackRange : Z;
    position : Z * Z;
    hasMoved : bool;
    hasAttacked : bool;
    player : Player }.

(** [interface Terrain] with the fields of [interface City extends
    Terrain]: [isCity] is [false] where the flag is absent, [owner] is
    [None] where it is [null] or absent, and [captureProgress] is
    [Undefined] where it is absent, as in every object of
    [TERRAIN_TYPES]. *)
Record Terrain := mkTerrain
  { terrainType : TerrainType;
    defenseBonus : Q;
    movementCost : Q;
    isCity : bool;
    owner : option Player;
    captureProgress : numeric }.

Record Tile := mkTile
  { tilePosition : Z * Z; terrain : Terrain; unit : option Unit }.

Abbreviation Grid := (list (list Tile)).

(** [UNIT_TYPES[type]] spread into a unit by [createUnit]. *)
Definition createUnit (type : UnitType) (position : Z * Z)
    (player : Player) (id : string) : Unit :=
  match type with
  | Infantry =>
      mkUnit id Infantry 100 55 10 3 1 position false false player
  | Tank => mkUnit id Tank 100 75 30 5 1 position false false player
  | Artillery =>
      mkUnit id Artillery 100 90 5 3 3 position false false player
  | APC => mkUnit id APC 100 0 15 6 0 position false false player
  end.

Definition TERRAIN_TYPES (t : TerrainType) : Terrain :=
  match t with
  | Plain => mkTerrain Plain 0 1 false None Undefined
  | Mountain => mkTerrain Mountain 30 3 false None Undefined
  | Forest => mkTerrain Forest 10 2 false None Undefined
  | City => mkTerrain City 20 1 true None Undefined
  | Road => mkTerrain Road 0 0.5 false None Undefined
  end.

Definition withHealth (h : Q) (u : Unit) : Unit :=
  mkUnit (id u) (type u) h (attack u) (defense u) (moveRange u)
    (attackRange u) (position u) (hasMoved u) (hasAttacked u) (player u).
Definition withHasAttacked (b : bool) (u : Unit) : Unit :=
  mkUnit (id u) (type u) (health u) (attack u) (defense u) (moveRange u)
    (attackRange u) (position u) (hasMoved u) b (player u).
(** [{ ...unit, position: p, hasMoved: true }] *)
Definition movedTo (p : Z * Z) (u : Unit) : Unit :=
  mkUnit (id u) (type u) (health u) (attack u) (defense u) (moveRange u)
    (attackRange u) p true (hasAttacked u) (player u).
(** [{ ...unit, hasMoved: false, hasAttacked: false }] *)
Definition refreshed (u : Unit) : Unit :=
  mkUnit (id u) (type u) (health u) (attack u) (defense u) (moveRange u)
    (attackRange u) (position u) false false (player u).

Definition calculateDamage (attacker defender : Unit)
    (defenderTerrain : Terrain) : Q :=
  let terrainDefense :=
    (defense defender * (defenseBonus defenderTerrain / 100))%Q in
  let damage :=
    Qmax 0 (attack attacker - (defense defender + terrainDefense))%Q in
  Qmin (health defender) (Qmax 10 damage).

Definition isInRange (unitPosition targetPosition : Z * Z) (range : Z)
  : bool :=
  let '(ux, uy) := unitPosition in
  let '(tx, ty) := targetPosition in
  Z.abs (ux - tx) + Z.abs (uy - ty) <=? range.

(** [grid[y][x]] followed by a property read. *)
Definition tileAt (grid : Grid) (x y : Z) : result Tile :=
  o ← index2 grid x y; defined o.

(** [grid[y][x].unit = u]: the tile object is updated in place. *)
Definition setUnit (grid : Grid) (x y : Z) (u : option Unit)
  : result Grid :=
  t ← tileAt grid x y;
  assign2 grid x y (mkTile (tilePosition t) (terrain t) u).

(** [grid[y][x].terrain = c] *)
Definition setTerrain (grid : Grid) (x y : Z) (c : Terrain)
  : result Grid :=
  t ← tileAt grid x y;
  assign2 grid x y (mkTile (tilePosition t) c (unit t)).

(** The text of [gameStatus]; each constructor is one of the string
    literals or templates passed to [setGameStatus].  A handler that
    calls [setGameStatus] more than once leaves the last text. *)
Inductive Status :=
| SelectUnitToMove            (* 'Select a unit to move' *)
| ItsTurnOf (p : Player)      (* `It's ${currentPlayer}'s turn` *)
| AlreadyActed                (* 'This unit has already moved and
                                 attacked this turn' *)
| SelectTile                  (* 'Select a tile to move to' *)
| SelectEnemy                 (* 'Select an enemy unit to attack' *)
| NoEnemies                   (* 'No enemies in range to attack' *)
| SelectAnother               (* 'Select another unit' *)
| Destroyed (t : UnitType)    (* `${defender.type} destroyed!` *)
| TookDamage (t : UnitType) (damage : Q)
                              (* `${defender.type} took ${damage}
                                 damage!` *)
| Wins (p : Player)           (* 'Red wins!', 'Blue wins!' *)
| TurnOf (p : Player)         (* `${p}'s turn` *)
| Captured (p : Player)       (* `${unit.player} captured a city!` *)
| Capturing (progress : numeric).   (* `Capturing: ${city.captureProgress}%` *)

Definition other (p : Player) : Player :=
  match p with Red => Blue | Blue => Red end.

Section Ranges.
Variable GRID_SIZE : Z.

(** [nx < 0 || nx >= GRID_SIZE || ny < 0 || ny >= GRID_SIZE] *)
Definition outside (nx ny : Z) : bool :=
  (nx <? 0) || (GRID_SIZE <=? nx) || (ny <? 0) || (GRID_SIZE <=? ny).

(** The body of the loops over [dx] and [dy] of the two range functions;
    [skip] is the test of the tile that makes the loop [continue]. *)
Definition probe (grid : Grid) (skip : Tile → bool) (x y range_ dx : Z)
    (valid : list (Z * Z)) (dy : Z) : result (list (Z * Z)) :=
  let nx := x + dx in
  let ny := y + dy in
  if outside nx ny then Ok valid
  else
    t ← tileAt grid nx ny;
    if skip t then Ok valid
    else
      let distance := Z.abs dx + Z.abs dy in
      if distance <=? range_ then Ok (valid ++ [(nx, ny)])
      else Ok valid.

Definition scanDiamond (grid : Grid) (skip : Tile → bool)
    (x y range_ : Z) : result (list (Z * Z)) :=
  foldlM (λ valid dx,
            foldlM (probe grid skip x y range_ dx)
              (range (- range_) range_) valid)
    (range (- range_) range_) [].

(** [grid[ny][nx].unit !== null] *)
Definition occupied (t : Tile) : bool :=
  match unit t with Some _ => true | None => false end.

Definition calculateMovementRange (grid : Grid) (u : Unit)
  : result (list (Z * Z)) :=
  let '(x, y) := position u in
  scanDiamond grid occupied x y (moveRange u).

(** [grid[ny][nx].unit === null ||
     grid[ny][nx].unit?.player === unit.player] *)
Definition notEnemy (u : Unit) (t : Tile) : bool :=
  match unit t with
  | None => true
  | Some o => bool_decide (player o = player u)
  end.

Definition calculateAttackRange (grid : Grid) (u : Unit)
  : result (list (Z * Z)) :=
  let '(x, y) := position u in
  scanDiamond grid (notEnemy u) x y (attackRange u).

(** The loop that fills [unitsLeft]: the numbers of Red and of Blue
    units on the board. *)
Definition countUnits (grid : Grid) : result (Z * Z) :=
  foldlM (λ unitsLeft y,
    foldlM (λ unitsLeft x,
      t ← tileAt grid x y;
      match unit t with
      | Some u =>
        match player u with
        | Red => Ok (unitsLeft.1 + 1, unitsLeft.2)
        | Blue => Ok (unitsLeft.1, unitsLeft.2 + 1)
        end
      | None => Ok unitsLeft
      end)
      (range 0 (GRID_SIZE - 1)) unitsLeft)
    (range 0 (GRID_SIZE - 1)) (0, 0).

End Ranges.

End Board.
Export Board.

(** The [useState] cells of [Game.tsx]. *)
Record State := mkState
  { grid : Grid;
    selectedUnit : option Unit;
    currentPlayer : Player;
    movementRange : list (Z * Z);
    attackRange : list (Z * Z);
    gameStatus : Status }.

Definition setGrid (g : Grid) (s : State) : State :=
  mkState g (selectedUnit s) (currentPlayer s) (movementRange s)
    (attackRange s) (gameStatus s).
Definition setSelectedUnit (u : option Unit) (s : State) : State :=
  mkState (grid s) u (currentPlayer s) (movementRange s)
    (attackRange s) (gameStatus s).
Definition setCurrentPlayer (p : Player) (s : State) : State :=
  mkState (grid s) (selectedUnit s) p (movementRange s)
    (attackRange s) (gameStatus s).
Definition setMovementRange (r : list (Z * Z)) (s : State) : State :=
  mkState (grid s) (selectedUnit s) (currentPlayer s) r
    (attackRange s) (gameStatus s).
Definition setAttackRange (r : list (Z * Z)) (s : State) : State :=
  mkState (grid s) (selectedUnit s) (currentPlayer s) (movementRange s)
    r (gameStatus s).
Definition setGameStatus (m : Status) (s : State) : State :=
  mkState (grid s) (selectedUnit s) (currentPlayer s) (movementRange s)
    (attackRange s) m.

(** [setSelectedUnit(null); setMovementRange([]); setAttackRange([])] *)
Definition clearSelection (s : State) : State :=
  setAttackRange [] (setMovementRange [] (setSelectedUnit None s)).

(** [range.some(([mx, my]) => mx === x && my === y)] *)
Definition inRange (r : list (Z * Z)) (x y : Z) : bool :=
  existsb (λ m, (m.1 =? x) && (m.2 =? y)) r.

(** [grid[y][x].unit && grid[y][x].unit.player === currentPlayer] *)
Definition ownUnitAt (s : State) (x y : Z) : result bool :=
  t ← tileAt (grid s) x y;
  Ok match unit t with
     | Some u => bool_decide (player u = currentPlayer s)
     | None => false
     end.

Section Rules.
Variable GRID_SIZE : Z.

Definition handleUnitSelect (s : State) (x y : Z) : result State :=
  t ← tileAt (grid s) x y;
  match unit t with
  | None => Ok (clearSelection s)
  | Some u =>
    if negb (bool_decide (player u = currentPlayer s))
    then Ok (setGameStatus (ItsTurnOf (currentPlayer s)) s)
    else if hasMoved u && hasAttacked u
    then Ok (setGameStatus AlreadyActed s)
    else
      let s1 := setSelectedUnit (Some u) s in
      if negb (hasMoved u) then
        moveRange ← calculateMovementRange GRID_SIZE (grid s) u;
        Ok (setGameStatus SelectTile (setMovementRange moveRange s1))
      else if negb (hasAttacked u) && (0 <? Board.attackRange u) then
        attackRange ← calculateAttackRange GRID_SIZE (grid s) u;
        Ok (setGameStatus SelectEnemy (setAttackRange attackRange s1))
      else Ok s1
  end.

(** [moveUnit]: the tiles of [updatedGrid] are the tile objects of
    [grid], so that [calculateAttackRange], which reads [grid], sees
    the unit at its new position. *)
Definition moveUnit (s : State) (u : Unit) (x y : Z) : result State :=
  let '(oldX, oldY) := position u in
  grid1 ← setUnit (grid s) oldX oldY None;
  let updatedUnit := movedTo (x, y) u in
  grid2 ← setUnit grid1 x y (Some updatedUnit);
  let s1 :=
    setMovementRange [] (setSelectedUnit (Some updatedUnit)
                           (setGrid grid2 s)) in
  if 0 <? Board.attackRange updatedUnit then
    newAttackRange ← calculateAttackRange GRID_SIZE grid2 updatedUnit;
    let s2 := setAttackRange newAttackRange s1 in
    if (0 <? length newAttackRange)%nat
    then Ok (setGameStatus SelectEnemy s2)
    else Ok (setSelectedUnit None (setGameStatus NoEnemies s2))
  else Ok (setGameStatus SelectAnother (setSelectedUnit None s1)).

Definition attackUnit (s : State) (attacker : Unit) (x y : Z)
  : result State :=
  target ← tileAt (grid s) x y;
  defender ← defined (unit target);
  let damage := calculateDamage attacker defender (terrain target) in
  let updatedDefender :=
    withHealth (health defender - damage)%Q defender in
  let updatedAttacker := withHasAttacked true attacker in
  let '(attackerX, attackerY) := position attacker in
  grid1 ← setUnit (grid s) attackerX attackerY (Some updatedAttacker);
  let destroyed := Qle_bool (health updatedDefender) 0 in
  grid2 ← setUnit grid1 x y
            (if destroyed then None else Some updatedDefender);
  let status :=
    if destroyed then Destroyed (type defender)
    else TookDamage (type defender) damage in
  let s1 :=
    setAttackRange [] (setSelectedUnit None
                         (setGameStatus status (setGrid grid2 s))) in
  unitsLeft ← countUnits GRID_SIZE grid2;
  if unitsLeft.1 =? 0 then Ok (setGameStatus (Wins Blue) s1)
  else if unitsLeft.2 =? 0 then Ok (setGameStatus (Wins Red) s1)
  else Ok s1.

(** [if (grid[y][x].unit && grid[y][x].unit.player === currentPlayer)
    handleUnitSelect(x, y)], and the state [otherwise]. *)
Definition selectOwn (s : State) (x y : Z) (otherwise : State)
  : result State :=
  ownUnitAt s x y ≫= λ own : bool,
    if own then handleUnitSelect s x y else Ok otherwise.

Definition handleTileClick (s : State) (x y : Z) : result State :=
  match selectedUnit s with
  | None => selectOwn s x y s
  | Some u =>
    if negb (hasMoved u) && inRange (movementRange s) x y
    then moveUnit s u x y
    else if negb (hasAttacked u) && inRange (attackRange s) x y
    then attackUnit s u x y
    else selectOwn s x y (clearSelection s)
  end.

Definition endTurn (s : State) : State :=
  let updatedGrid :=
    (λ row : list Tile,
       (λ tile : Tile,
          match unit tile with
          | Some u =>
            if bool_decide (player u = currentPlayer s)
            then mkTile (tilePosition tile) (terrain tile)
                   (Some (refreshed u))
            else tile
          | None => tile
          end) <$> row) <$> grid s in
  let next := other (currentPlayer s) in
  setGameStatus (TurnOf next)
    (clearSelection (setCurrentPlayer next (setGrid updatedGrid s))).

(** The events of the component: a click on a tile and the End Turn
    button. *)
Inductive Event :=
| TileClick (x y : Z)
| EndTurn.

Definition step (s : State) (e : Event) : result State :=
  match e with
  | TileClick x y => handleTileClick s x y
  | EndTurn => Ok (endTurn s)
  end.

Definition run (s : State) (events : list Event) : result State :=
  foldlM step events s.

End Rules.

Definition GRID_SIZE : Z := 10.

(** [initializeGame] on the grid [initialGrid] that [generateInitialGrid]
    returned; [ids] are the six values of [generateId()]. *)
Definition initialUnits (size : Z) (ids : nat → string) : list Unit :=
  [ createUnit Infantry (1, 0) Red (ids 0%nat);
    createUnit Tank (0, 1) Red (ids 1%nat);
    createUnit Artillery (1, 2) Red (ids 2%nat);
    createUnit Infantry (size - 2, size - 1) Blue (ids 3%nat);
    createUnit Tank (size - 1, size - 2) Blue (ids 4%nat);
    createUnit Artillery (size - 2, size - 3) Blue (ids 5%nat) ].

Definition initializeGame (initialGrid : Grid) (ids : nat → string)
  : result State :=
  g ← foldlM (λ g u, setUnit g (position u).1 (position u).2 (Some u))
        (initialUnits GRID_SIZE ids) initialGrid;
  Ok (mkState g None Red [] [] SelectUnitToMove).

End TurnDriven.

(** ** Cities and capture: second component of [Game2.tsx]

    The component repeats [Game.tsx] on a 20x20 board; what it adds is a
    viewport, resources, and the capture of cities.  [attackUnit],
    [calculateMovementRange] and [calculateAttackRange] are those of
    [TurnDriven] at [GRID_SIZE = 20].

    The terrain of a tile is one of the objects of [TERRAIN_TYPES], put
    there by [generateInitialGrid]; the component's [initializeGrid],
    which would give every city an [owner] and a [captureProgress] of
    its own, is defined but never called.  An update in place of a city
    is written here on the tile of the update; the tiles that share the
    object are not followed, and no handler tells [undefined] from [NaN]
    on them. *)

Module CityCapture.
Import TurnDriven.

Definition GRID_SIZE : Z := 20.

(** [Record<Player, number>] *)
Record Funds := mkFunds { ofRed : Z; ofBlue : Z }.

Record State := mkState
  { game : TurnDriven.State;
    viewportPosition : Z * Z;
    viewSize : Z;
    resources : Funds }.

Definition setGame (g : TurnDriven.State) (s : State) : State :=
  mkState g (viewportPosition s) (viewSize s) (resources s).
Definition setViewportPosition (p : Z * Z) (s : State) : State :=
  mkState (game s) p (viewSize s) (resources s).
Definition setResources (r : Funds) (s : State) : State :=
  mkState (game s) (viewportPosition s) (viewSize s) r.

Definition withProgress (p : numeric) (c : Terrain) : Terrain :=
  mkTerrain (terrainType c) (defenseBonus c) (movementCost c) (isCity c)
    (owner c) p.
Definition withOwner (o : option Player) (c : Terrain) : Terrain :=
  mkTerrain (terrainType c) (defenseBonus c) (movementCost c) (isCity c)
    o (captureProgress c).

Definition centerViewportOn (x y : Z) (s : State) : State :=
  let halfViewSize := viewSize s / 2 in
  let newX := Z.max 0 (Z.min (GRID_SIZE - viewSize s) (x - halfViewSize)) in
  let newY := Z.max 0 (Z.min (GRID_SIZE - viewSize s) (y - halfViewSize)) in
  setViewportPosition (newX, newY) s.

(** [if (city.owner && city.owner !== unit.player)
       city.captureProgress = 0] *)
Definition resetIfEnemy (u : Unit) (city : Terrain) : Terrain :=
  match owner city with
  | Some o =>
    if bool_decide (o = player u) then city
    else withProgress (Num 0) city
  | None => city
  end.

(** [captureCity] returns its boolean together with the state.  The
    [City] object is the terrain object of the tile: the reset of its
    progress is an update in place and is kept when the function returns
    [false] without a call to [setGrid]. *)
Definition captureCity (s : State) (u : Unit) (x y : Z)
  : result (State * bool) :=
  tile ← tileAt (grid (game s)) x y;
  if negb (isCity (terrain tile)) then Ok (s, false)
  else
    let city := resetIfEnemy u (terrain tile) in
    let captureAmount := if bool_decide (type u = Infantry) then 50 else 0 in
    if 0 <? captureAmount then
      let progress := incr (captureProgress city) captureAmount in
      let captured := atLeast progress 100 in
      let city' :=
        if captured
        then withProgress (Num 0) (withOwner (Some (player u)) city)
        else withProgress progress city in
      let status :=
        if captured then Captured (player u) else Capturing progress in
      let updatedUnit := withHasAttacked true u in
      grid' ← assign2 (grid (game s)) x y
                (mkTile (tilePosition tile) city' (Some updatedUnit));
      Ok (setGame (setSelectedUnit (Some updatedUnit)
                     (setGrid grid' (setGameStatus status (game s)))) s,
          true)
    else
      grid' ← setTerrain (grid (game s)) x y city;
      Ok (setGame (setGrid grid' (game s)) s, false).

Definition handleUnitSelect (s : State) (x y : Z) : result State :=
  t ← tileAt (grid (game s)) x y;
  match unit t with
  | None => Ok (setGame (clearSelection (game s)) s)
  | Some u =>
    if negb (bool_decide (player u = currentPlayer (game s)))
    then Ok (setGame (setGameStatus (ItsTurnOf (currentPlayer (game s)))
                        (game s)) s)
    else if hasMoved u && hasAttacked u
    then Ok (setGame (setGameStatus AlreadyActed (game s)) s)
    else
      let g1 := setSelectedUnit (Some u) (game s) in
      let s1 := centerViewportOn x y s in
      if negb (hasMoved u) then
        moveRange ← calculateMovementRange GRID_SIZE (grid (game s)) u;
        Ok (setGame (setGameStatus SelectTile
                       (setMovementRange moveRange g1)) s1)
      else if negb (hasAttacked u) && (0 <? Board.attackRange u) then
        attackRange ← calculateAttackRange GRID_SIZE (grid (game s)) u;
        Ok (setGame (setGameStatus SelectEnemy
                       (setAttackRange attackRange g1)) s1)
      else Ok (setGame g1 s1)
  end.

(** [if (city.owner !== unit.player && city.captureProgress > 0)
       city.captureProgress = 0] on the tile the unit leaves. *)
Definition abandon (u : Unit) (t : Terrain) : Terrain :=
  if isCity t
     && negb (bool_decide (owner t = Some (player u)))
     && above (captureProgress t) 0
  then withProgress (Num 0) t
  else t.

Definition moveUnit (s : State) (u : Unit) (x y : Z) : result State :=
  let '(oldX, oldY) := position u in
  grid1 ← setUnit (grid (game s)) oldX oldY None;
  oldTile ← tileAt grid1 oldX oldY;
  grid2 ← setTerrain grid1 oldX oldY (abandon u (terrain oldTile));
  let updatedUnit := movedTo (x, y) u in
  grid3 ← setUnit grid2 x y (Some updatedUnit);
  let g1 :=
    setMovementRange [] (setSelectedUnit (Some updatedUnit)
                           (setGrid grid3 (game s))) in
  let s1 := centerViewportOn x y s in
  if 0 <? Board.attackRange updatedUnit then
    newAttackRange ← calculateAttackRange GRID_SIZE grid3 updatedUnit;
    let g2 := setAttackRange newAttackRange g1 in
    if (0 <? length newAttackRange)%nat
    then Ok (setGame (setGameStatus SelectEnemy g2) s1)
    else Ok (setGame (setSelectedUnit None (setGameStatus NoEnemies g2)) s1)
  else Ok (setGame (setGameStatus SelectAnother (setSelectedUnit None g1))
             s1).

Definition attackUnit (s : State) (attacker : Unit) (x y : Z)
  : result State :=
  g ← TurnDriven.attackUnit GRID_SIZE (game s) attacker x y;
  Ok (setGame g s).

Definition selectOwn (s : State) (x y : Z) (otherwise : State)
  : result State :=
  ownUnitAt (game s) x y ≫= λ own : bool,
    if own then handleUnitSelect s x y else Ok otherwise.

(** The first statement of [handleTileClick]: the attempt to capture the
    city under the selected unit.  The boolean tells whether the handler
    returns there. *)
Definition tryCapture (s : State) (x y : Z) : result (State * bool) :=
  match selectedUnit (game s) with
  | Some u =>
    if negb (hasAttacked u) && bool_decide (position u = (x, y)) then
      t ← tileAt (grid (game s)) x y;
      if isCity (terrain t)
         && negb (bool_decide (owner (terrain t) = Some (player u)))
      then captureCity s u x y
      else Ok (s, false)
    else Ok (s, false)
  | None => Ok (s, false)
  end.

Definition handleTileClick (s : State) (x y : Z) : result State :=
  tryCapture s x y ≫= λ r : State * bool,
    let '(s, done) := r in
    if done then Ok s
    else
      match selectedUnit (game s) with
      | None => selectOwn s x y s
      | Some u =>
        if negb (hasMoved u) && inRange (movementRange (game s)) x y
        then moveUnit s u x y
        else if negb (hasAttacked u) && inRange (attackRange (game s)) x y
        then attackUnit s u x y
        else selectOwn s x y (setGame (clearSelection (game s)) s)
      end.

(** The income loop of [endTurn]: 100 for each city of [p]. *)
Definition cityIncome (grid : Grid) (p : Player) : result Z :=
  foldlM (λ income y,
    foldlM (λ income x,
      t ← tileAt grid x y;
      if isCity (terrain t) && bool_decide (owner (terrain t) = Some p)
      then Ok (income + 100) else Ok income)
      (range 0 (GRID_SIZE - 1)) income)
    (range 0 (GRID_SIZE - 1)) 0.

Definition credit (p : Player) (income : Z) (r : Funds) : Funds :=
  match p with
  | Red => mkFunds (ofRed r + income) (ofBlue r)
  | Blue => mkFunds (ofRed r) (ofBlue r + income)
  end.

(** The last loop of [endTurn]: the first unit of [p] in row order. *)
Definition firstUnitOf (grid : Grid) (p : Player)
  : result (option (Z * Z)) :=
  foldlM (λ found y,
    foldlM (λ found x,
      match found with
      | Some _ => Ok found
      | None =>
        t ← tileAt grid x y;
        match unit t with
        | Some u => Ok (if bool_decide (player u = p)
                        then Some (x, y) else None)
        | None => Ok None
        end
      end)
      (range 0 (GRID_SIZE - 1)) found)
    (range 0 (GRID_SIZE - 1)) None.

Definition endTurn (s : State) : result State :=
  let nextPlayer := other (currentPlayer (game s)) in
  income ← cityIncome (grid (game s)) nextPlayer;
  let g := TurnDriven.endTurn (game s) in
  let s1 :=
    if 0 <? income
    then setResources (credit nextPlayer income (resources s)) (setGame g s)
    else setGame g s in
  found ← firstUnitOf (grid g) nextPlayer;
  Ok match found with
     | Some (x, y) => centerViewportOn x y s1
     | None => s1
     end.

Inductive Event :=
| TileClick (x y : Z)
| EndTurn.

Definition step (s : State) (e : Event) : result State :=
  match e with
  | TileClick x y => handleTileClick s x y
  | EndTurn => endTurn s
  end.

Definition run (s : State) (events : list Event) : result State :=
  foldlM step events s.

(** [generateInitialGrid]: each tile takes one of the objects of
    [TERRAIN_TYPES]; [layout] stands for the outcome of the random
    choices. *)
Definition generateInitialGrid (layout : Z → Z → TerrainType) : Grid :=
  (λ y, (λ x, mkTile (x, y) (TERRAIN_TYPES (layout x y)) None)
          <$> range 0 (GRID_SIZE - 1))
    <$> range 0 (GRID_SIZE - 1).

(** The ten units of [initializeGame]; [ids] are the values of
    [generateId()]. *)
Definition initialUnits (ids : nat → string) : list Unit :=
  [ createUnit Infantry (2, 1) Red (ids 0%nat);
    createUnit Tank (1, 2) Red (ids 1%nat);
    createUnit Artillery (2, 3) Red (ids 2%nat);
    createUnit Infantry (4, 1) Red (ids 3%nat);
    createUnit APC (5, 2) Red (ids 4%nat);
    createUnit Infantry (GRID_SIZE - 3, GRID_SIZE - 2) Blue (ids 5%nat);
    createUnit Tank (GRID_SIZE - 2, GRID_SIZE - 3) Blue (ids 6%nat);
    createUnit Artillery (GRID_SIZE - 3, GRID_SIZE - 4) Blue (ids 7%nat);
    createUnit Infantry (GRID_SIZE - 5, GRID_SIZE - 2) Blue (ids 8%nat);
    createUnit APC (GRID_SIZE - 6, GRID_SIZE - 3) Blue (ids 9%nat) ].

(** The state after the effect that runs [initializeGame] once. *)
Definition initializeGame (layout : Z → Z → TerrainType)
    (ids : nat → string) : result State :=
  g ← foldlM (λ g u, setUnit g (position u).1 (position u).2 (Some u))
        (initialUnits ids) (generateInitialGrid layout);
  Ok (mkState (TurnDriven.mkState g None Red [] [] SelectUnitToMove)
        (0, 0) 10 (mkFunds 1000 1000)).

End CityCapture.

(** * Specification-side definitions *)

(** ** Arrays of rows *)

Module Rows.

(** The element at column [x] of row [y], if there is one. *)
Definition cell {A} (a : list (list A)) (x y : Z) : option A :=
  row ← index a y; index row x.

(** [h] rows of [w] elements, the shape of a board and of the boolean
    masks computed over it. *)
Definition shaped {A} (w h : Z) (a : list (list A)) : Prop :=
  length a = Z.to_nat h ∧ Forall (λ row, length row = Z.to_nat w) a.

End Rows.
Import Rows.

(** ** Reachability as the specification words it

    "Breadth-first search from the unit's position over 4-directional
    adjacency": a frontier of tiles with their remaining budget, a set of
    tiles already seen, and the set of tiles reached.  A neighbour is
    enqueued when it is in bounds, not yet seen, unoccupied or occupied by
    the mover's faction, and the budget left after the step (2 into a
    mountain, 1 otherwise) is not negative.  Neighbours are taken left,
    right, up, down, as the engine takes them. *)

Module Reachability.
Import TimeDriven.

(** The specification of the search does not refer to the functions or
    constants of the engine, only to the records of its board. *)

(** The steps of 4-directional adjacency, in the order in which the
    search takes them: one tile to the left, to the right, up, down. *)
Definition steps : list (Z * Z) := [(-1, 0); (1, 0); (0, -1); (0, 1)].

Section Search.
Variable sz : Size.
Variable grid : list (list Tile).
Variable mover : Unit.

(** The tile at column [x] of row [y] is on the board. *)
Definition inside (x y : Z) : bool :=
  (0 <=? x) && (x <? width sz) && (0 <=? y) && (y <? height sz).

Definition stepCost (t : Tile) : Z :=
  match terrain t with mountain => 2 | _ => 1 end.

Definition admits (t : Tile) : bool :=
  match unit t with
  | None => true
  | Some o => bool_decide (player o = player mover)
  end.

Definition enqueue (from : QueueItem)
    (acc : gset (Z * Z) * list QueueItem) (d : Z * Z)
  : gset (Z * Z) * list QueueItem :=
  let n := (qx from + d.1, qy from + d.2) in
  match cell grid n.1 n.2 with
  | Some t =>
    if inside n.1 n.2
       && bool_decide (n ∉ acc.1)
       && admits t
       && (stepCost t <=? movesLeft from)
    then ({[ n ]} ∪ acc.1,
          acc.2 ++ [mkItem n.1 n.2 (movesLeft from - stepCost t)])
    else acc
  | None => acc
  end.

(** [rounds] bounds the number of tiles taken from the frontier; every
    tile enters the frontier at most once. *)
Fixpoint search (rounds : nat) (reached seen : gset (Z * Z))
    (frontier : list QueueItem) : gset (Z * Z) :=
  match frontier, rounds with
  | from :: rest, S rounds' =>
    let '(seen', frontier') := foldl (enqueue from) (seen, rest) steps in
    search rounds' ({[ (qx from, qy from) ]} ∪ reached) seen' frontier'
  | _, _ => reached
  end.

(** [pathCost a b k]: some path from [a] to [b] has cumulative cost
    [k].  Each step of the path goes to one of the four tiles at
    Manhattan distance 1, never diagonally, and the tile it enters is on
    the board and admits the mover. *)
Inductive pathCost (a : Z * Z) : Z * Z → Z → Prop :=
| path_here : pathCost a a 0
| path_step b c k t :
    pathCost a b k →
    Z.abs (c.1 - b.1) + Z.abs (c.2 - b.2) = 1 →
    0 ≤ c.1 < width sz → 0 ≤ c.2 < height sz →
    cell grid c.1 c.2 = Some t →
    admits t = true →
    pathCost a c (k + stepCost t).

End Search.

(** The coordinates of the board, row by row, and the number of them
    that a search has not seen yet: the search takes a tile from the
    frontier only as often as this number and the frontier allow. *)
Definition tiles (sz : Size) : list (Z * Z) :=
  flat_map (λ y, (λ x, (x, y)) <$> range 0 (width sz - 1))
    (range 0 (height sz - 1)).

Definition unseen (sz : Size) (seen : gset (Z * Z)) : nat :=
  length (filter (λ c, c ∉ seen) (tiles sz)).

(** [marks a s]: the mask [a] is [true] exactly on the set [s]. *)
Definition marks (a : list (list bool)) (s : gset (Z * Z)) : Prop :=
  ∀ x y, cell a x y = Some true ↔ (x, y) ∈ s.

(** [reachableTiles stats sz grid x y]: the tiles reached from the unit
    at [(x, y)] within its movement budget; empty without a unit. *)
Definition reachableTiles (STATS : UnitName → UnitStats) (sz : Size)
    (grid : list (list Tile)) (x y : Z) : gset (Z * Z) :=
  match cell grid x y with
  | Some t =>
    match unit t with
    | Some u =>
      match type u with
      | Some n =>
        search sz grid u (Z.to_nat (width sz * height sz)) ∅ {[ (x, y) ]}
          [mkItem x y (movement (STATS n))]
      | None => ∅
      end
    | None => ∅
    end
  | None => ∅
  end.

End Reachability.

(** ** Live units of the turn-driven board *)

Module Census.
Import TurnDriven.

(** The coordinates of a square board, row by row. *)
Definition squares (size : Z) : list (Z * Z) :=
  flat_map (λ y, (λ x, (x, y)) <$> range 0 (size - 1)) (range 0 (size - 1)).

(** The tile at [c] holds a unit of player [p]. *)
Definition heldBy (grid : list (list Tile)) (p : Player) (c : Z * Z) : bool :=
  match cell grid c.1 c.2 with
  | Some t =>
    match unit t with
    | Some u => bool_decide (player u = p)
    | None => false
    end
  | None => false
  end.

(** The number of units of [p] on the board. *)
Definition liveUnits (size : Z) (grid : list (list Tile)) (p : Player) : nat :=
  length (filter (λ c, heldBy grid p c = true) (squares size)).

(** Two states that differ at most in the text of [gameStatus]. *)
Definition sameButStatus (s1 s2 : State) : Prop :=
  grid s1 = grid s2
  ∧ selectedUnit s1 = selectedUnit s2
  ∧ currentPlayer s1 = currentPlayer s2
  ∧ movementRange s1 = movementRange s2
  ∧ attackRange s1 = attackRange s2.

(** A terrain nobody owns and whose capture progress is not a number. *)
Definition bare (c : Terrain) : Prop :=
  owner c = None ∧ ∀ n, captureProgress c ≠ Num n.

(** A board on which every terrain is. *)
Definition unclaimed (g : Grid) : Prop :=
  Forall (Forall (λ t : Tile, bare (terrain t))) g.

(** Two outcomes of a handler that differ at most in that text. *)
Definition alike (r1 r2 : result State) : Prop :=
  match r1, r2 with
  | Ok s1, Ok s2 => sameButStatus s1 s2
  | Fail e1, Fail e2 => e1 = e2
  | _, _ => False
  end.

End Census.

(** ** Doubles of moderate size *)

Module Magnitude.

(** [steady x b]: the double [x] is a zero or a finite number below
    [2 ^ b] in absolute value; neither an infinity nor [NaN]. *)
Definition steady (x : Js.Double.double) (b : Z) : Prop :=
  match x with
  | S754_zero _ => True
  | S754_finite _ m e => Zpos (digits2_pos m) + e ≤ b
  | S754_infinity _ | S754_nan => False
  end.

End Magnitude.

(** * Sample boards

    Concrete boards and states on which the definitions are evaluated. *)

Module Samples.

Module Time.
Import TimeDriven.

(** The board of [initializeGrid] when no draw gives a forest and only
    the draw for [(3, 2)] gives a mountain: player 1's infantry on its
    base at [(2, 2)], player 2's at [(9, 7)], cities at [(4, 4)] and
    [(7, 5)]. *)
Definition ridge : Grid :=
  initializeGrid gridSize (λ _ _, false) (λ x y, (x =? 3) && (y =? 2)).

Definition ridgeStart : State := initialState ridge 0.

(** [grid[y][x] = t] on a sample board. *)
Definition put (g : Grid) (x y : Z) (t : Tile) : Grid :=
  match assign2 g x y t with
  | Ok g' => g'
  | Fail _ => g
  end.

(** Player 2's infantry has come next to player 1's base. *)
Definition clash : Grid :=
  put (put ridge 9 7 (mkTile base None (Some P2)))
    2 3 (mkTile plain (Some (mkUnit (Some infantry) P2 100)) None).

Definition clashStart : State := initialState clash 0.

(** Player 1 has replaced the infantry on its base by an artillery;
    player 2 has infantry two, one and four tiles below it. *)
Definition battery : Grid :=
  put (put (put
    (put ridge 2 2
       (mkTile base (Some (mkUnit (Some artillery) P1 100)) (Some P1)))
    2 4 (mkTile plain (Some (mkUnit (Some infantry) P2 100)) None))
    2 3 (mkTile plain (Some (mkUnit (Some infantry) P2 100)) None))
    2 6 (mkTile plain (Some (mkUnit (Some infantry) P2 100)) None).

(** Player 1 at 5 of 10 action points, last recovered at time 1000. *)
Definition tired : State :=
  setLastApRecovery (mkPer 1000 1000)
    (setActionPoints (mkPer 5 10) ridgeStart).

End Time.

Module Turn.
Import TurnDriven.

(** A board of plains without units. *)
Definition plains (size : Z) : Grid :=
  (λ y, (λ x, mkTile (x, y) (TERRAIN_TYPES Plain) None)
          <$> range 0 (size - 1))
    <$> range 0 (size - 1).

(** [grid[y][x].terrain = terrain; grid[y][x].unit = u] on a sample
    board. *)
Definition put (g : Grid) (x y : Z) (terrain : Terrain) (u : option Unit)
  : Grid :=
  match assign2 g x y (mkTile (x, y) terrain u) with
  | Ok g' => g'
  | Fail _ => g
  end.

(** Red's infantry has moved to [(1, 0)], next to Blue's infantry in the
    city at [(1, 1)]; Blue's tank stands in its corner. *)
Definition redInfantry : Unit :=
  movedTo (1, 0) (createUnit Infantry (2, 0) Red "red-1").
Definition blueInfantry : Unit := createUnit Infantry (1, 1) Blue "blue-1".
Definition blueTank : Unit := createUnit Tank (9, 8) Blue "blue-2".

Definition duel : State :=
  mkState
    (put (put (put (plains 10)
       1 0 (TERRAIN_TYPES Plain) (Some redInfantry))
       1 1 (TERRAIN_TYPES City) (Some blueInfantry))
       9 8 (TERRAIN_TYPES Plain) (Some blueTank))
    (Some redInfantry) Red [] [(1, 1)] SelectEnemy.

(** Red's artillery has moved next to Blue's last unit, an infantry left
    with 30 health. *)
Definition redArtillery : Unit :=
  movedTo (1, 1) (createUnit Artillery (1, 2) Red "red-3").
Definition lastBlue : Unit :=
  withHealth 30 (createUnit Infantry (1, 2) Blue "blue-1").

Definition lastStand : State :=
  mkState
    (put (put (plains 10)
       1 1 (TERRAIN_TYPES Plain) (Some redArtillery))
       1 2 (TERRAIN_TYPES Plain) (Some lastBlue))
    (Some redArtillery) Red [] [(1, 2)] SelectEnemy.

(** Blue's tank has attacked and moved; it is Red's turn and nothing is
    selected. *)
Definition spentTank : Unit :=
  withHasAttacked true (movedTo (5, 5) (createUnit Tank (5, 6) Blue "blue-2")).

Definition waiting : State :=
  mkState
    (put (put (plains 10)
       1 0 (TERRAIN_TYPES Plain)
         (Some (createUnit Infantry (1, 0) Red "red-1")))
       5 5 (TERRAIN_TYPES Plain) (Some spentTank))
    None Red [] [] (TurnOf Red).

End Turn.

Module Cities.
Import TurnDriven CityCapture.

(** A board of plains with one city, next to Red's first infantry. *)
Definition crossroads (x y : Z) : TerrainType :=
  if (x =? 3) && (y =? 1) then City else Plain.

Definition ids (n : nat) : string :=
  String (Ascii.ascii_of_nat (97 + n)) EmptyString.

(** Red selects the infantry at [(2, 1)], moves it onto the city, selects
    it again and captures; after both players end their turns Red
    selects it and captures a second time. *)
Definition campaign : list Event :=
  [ TileClick 2 1; TileClick 3 1; TileClick 3 1; TileClick 3 1;
    EndTurn; EndTurn;
    TileClick 3 1; TileClick 3 1 ].

(** A city as the uncalled [initializeGrid] would make it: no owner and
    a progress of 0. *)
Definition neutralCity : Terrain := withProgress (Num 0) (TERRAIN_TYPES City).

(** Red's infantry has moved onto such a city at [(5, 5)]; no enemy is
    in range and nothing is selected. *)
Definition settler : Unit :=
  movedTo (5, 5) (createUnit Infantry (4, 5) Red "red-1").

Definition outpost : State :=
  CityCapture.mkState
    (TurnDriven.mkState
       (Turn.put (Turn.put (Turn.plains 20)
          5 5 neutralCity (Some settler))
          18 18 (TERRAIN_TYPES Plain)
            (Some (createUnit Infantry (18, 18) Blue "blue-1")))
       None Red [] [] NoEnemies)
    (0, 0) 10 (mkFunds 1000 1000).

End Cities.

End Samples.

(** * Properties *)

(** ** Arrays of rows *)

Module RowsFacts.

Section Index.
Context {A : Type}.
Implicit Types (l : list A) (i : Z).

Lemma index_Some l i v :
  index l i = Some v ↔ 0 ≤ i ∧ l !! Z.to_nat i = Some v.
Proof.
  unfold index. destruct (Z.leb_spec 0 i); split.
  - by intros.
  - by intros [_ ?].
  - done.
  - intros [? _]. lia.
Qed.

Lemma index_nonneg l i : 0 ≤ i → index l i = l !! Z.to_nat i.
Proof. intros. unfold index. by destruct (Z.leb_spec 0 i); [|lia]. Qed.

Lemma index_neg l i : i < 0 → index l i = None.
Proof. intros. unfold index. by destruct (Z.leb_spec 0 i); [lia|]. Qed.

Lemma index_bound l i v :
  index l i = Some v → 0 ≤ i < Z.of_nat (length l).
Proof.
  intros [? Hl]%index_Some. apply lookup_lt_Some in Hl. lia.
Qed.

Lemma index_inside l i :
  0 ≤ i < Z.of_nat (length l) → is_Some (index l i).
Proof.
  intros Hi. unfold index. destruct (Z.leb_spec 0 i); [|lia].
  apply lookup_lt_is_Some. lia.
Qed.

End Index.

Section Facts.
Context {A : Type}.
Implicit Types (a : list (list A)) (x y w h : Z).

Lemma shaped_row w h a y :
  shaped w h a → 0 ≤ y < h →
  ∃ row, index a y = Some row ∧ length row = Z.to_nat w.
Proof.
  intros [Hlen Hrows] Hy.
  destruct (index_inside a y) as [row Hrow]; [lia|].
  exists row. split; [done|].
  apply index_Some in Hrow as [_ Hrow].
  by eapply (Forall_lookup_1 _ _ _ _ Hrows).
Qed.

Lemma cell_bounds w h a x y v :
  shaped w h a → cell a x y = Some v → 0 ≤ x < w ∧ 0 ≤ y < h.
Proof.
  intros [Hlen Hrows]. unfold cell.
  destruct (index a y) as [row|] eqn:Hrow; [|done]. simpl.
  intros Hx%index_bound.
  pose proof (index_bound _ _ _ Hrow) as Hy.
  apply index_Some in Hrow as [_ Hrow].
  pose proof (Forall_lookup_1 _ _ _ _ Hrows Hrow) as Hw. simpl in Hw.
  lia.
Qed.

Lemma cell_inside w h a x y :
  shaped w h a → 0 ≤ x < w → 0 ≤ y < h → is_Some (cell a x y).
Proof.
  intros Ha Hx Hy. destruct (shaped_row w h a y) as (row & Hrow & Hw);
    [done..|].
  unfold cell. rewrite Hrow. simpl. apply index_inside. lia.
Qed.

Lemma index2_cell a x y o : index2 a x y = Ok o → cell a x y = o.
Proof.
  unfold index2, cell. destruct (index a y); simpl; congruence.
Qed.

Lemma index2_shaped w h a x y :
  shaped w h a → 0 ≤ y < h → index2 a x y = Ok (cell a x y).
Proof.
  intros Ha Hy. destruct (shaped_row w h a y) as (row & Hrow & _);
    [done..|].
  unfold index2, cell. by rewrite Hrow.
Qed.

Lemma assign2_shaped w h a x y v :
  shaped w h a → 0 ≤ x < w → 0 ≤ y < h →
  ∃ a', assign2 a x y v = Ok a' ∧ shaped w h a' ∧
        ∀ x' y', cell a' x' y' =
                 if decide (x' = x ∧ y' = y) then Some v
                 else cell a x' y'.
Proof.
  intros Ha Hx Hy.
  destruct (shaped_row w h a y) as (row & Hrow & Hw); [done..|].
  unfold assign2. rewrite Hrow. simpl.
  destruct (Z.leb_spec 0 x); [|lia].
  destruct (Z.ltb_spec x (Z.of_nat (length row))); [|lia]. simpl.
  eexists. split; [done|]. split.
  - destruct Ha as [Hlen Hrows]. split.
    + by rewrite length_insert.
    + apply Forall_insert; [done|]. by rewrite length_insert.
  - intros x' y'. apply index_Some in Hrow as [_ Hrow].
    pose proof (lookup_lt_Some _ _ _ Hrow) as Hlt.
    unfold cell. destruct (Z.lt_ge_cases y' 0) as [Hy'|Hy'].
    { rewrite !(index_neg _ y'), decide_False by lia. done. }
    rewrite !(index_nonneg _ y') by done.
    destruct (decide (Z.to_nat y = Z.to_nat y')) as [Heq|Hne].
    + assert (y' = y) as -> by lia.
      rewrite list_lookup_insert_eq, Hrow by done. simpl.
      destruct (Z.lt_ge_cases x' 0) as [Hx'|Hx'].
      { rewrite !(index_neg _ x'), decide_False by lia. done. }
      rewrite !(index_nonneg _ x') by done.
      destruct (decide (Z.to_nat x = Z.to_nat x')) as [Hex|Hnx].
      * assert (x' = x) as -> by lia.
        rewrite list_lookup_insert_eq by lia. by rewrite decide_True.
      * rewrite list_lookup_insert_ne by done.
        by rewrite decide_False by lia.
    + rewrite list_lookup_insert_ne by done.
      by rewrite decide_False by lia.
Qed.

Lemma filled_shaped w h (v : A) : shaped w h (filled w h v).
Proof.
  unfold filled. split.
  - by rewrite length_replicate.
  - apply Forall_replicate. by rewrite length_replicate.
Qed.

Lemma filled_cell w h (v : A) x y o :
  cell (filled w h v) x y = Some o → o = v.
Proof.
  unfold cell, filled.
  destruct (index _ y) as [row|] eqn:Hrow; [|done]. simpl.
  apply index_Some in Hrow as [_ [-> _]%lookup_replicate].
  by intros [_ [-> _]%lookup_replicate]%index_Some.
Qed.

End Facts.

End RowsFacts.
Import RowsFacts.

(** ** Counting loops *)

Module RangeFacts.

Lemma elem_of_range lo hi i : i ∈ range lo hi ↔ lo ≤ i ≤ hi.
Proof.
  unfold range. rewrite list_elem_of_fmap. split.
  - intros (k & -> & Hk%elem_of_seq). lia.
  - intros Hi. exists (Z.to_nat (i - lo)). split; [lia|].
    apply elem_of_seq. lia.
Qed.

Lemma length_range lo hi : length (range lo hi) = Z.to_nat (hi + 1 - lo).
Proof. unfold range. by rewrite length_fmap, length_seq. Qed.

Lemma foldlM_app {A B} (f : A → B → result A) l1 l2 a :
  foldlM f (l1 ++ l2) a = a' ← foldlM f l1 a; foldlM f l2 a'.
Proof.
  revert a. induction l1 as [|b l1 IH]; intros a; simpl; [done|].
  destruct (f a b); simpl; [apply IH | done].
Qed.

End RangeFacts.
Import RangeFacts.

(** ** Doubles: no overflow on numbers of moderate size *)

Module DoubleFacts.
Import Js Magnitude.

(** The exponent of the rounded result, for binary64. *)
Lemma fexp_eq e : fexp Double.prec Double.emax e = Z.max (e - 53) (-1074).
Proof. reflexivity. Qed.

(** [Zdigits2 z] is the number of binary digits of [|z|]. *)
Lemma digits2_pos_bounds p :
  (2 ^ (Zpos (digits2_pos p) - 1) ≤ Zpos p
   ∧ Zpos p < 2 ^ (Zpos (digits2_pos p)))%Z.
Proof.
  induction p as [p IH|p IH|]; cbn [digits2_pos].
  - rewrite Pos2Z.inj_succ. change (Z.pos p~1) with (2 * Z.pos p + 1).
    replace (Z.succ (Z.pos (digits2_pos p)) - 1)
      with (Z.succ (Z.pos (digits2_pos p) - 1)) by lia.
    rewrite !Z.pow_succ_r by lia. lia.
  - rewrite Pos2Z.inj_succ. change (Z.pos p~0) with (2 * Z.pos p).
    replace (Z.succ (Z.pos (digits2_pos p)) - 1)
      with (Z.succ (Z.pos (digits2_pos p) - 1)) by lia.
    rewrite !Z.pow_succ_r by lia. lia.
  - cbn. lia.
Qed.

Lemma Zdigits2_nonneg z : 0 ≤ Zdigits2 z.
Proof. destruct z; cbn; lia. Qed.

Lemma Zdigits2_lt z : Z.abs z < 2 ^ Zdigits2 z.
Proof.
  destruct z as [|p|p]; cbn [Zdigits2 Z.abs]; [cbn; lia| |];
    apply digits2_pos_bounds.
Qed.

Lemma Zdigits2_le z n : 0 ≤ n → Z.abs z < 2 ^ n → Zdigits2 z ≤ n.
Proof.
  intros Hn Hz. destruct z as [|p|p]; cbn [Zdigits2 Z.abs] in *; [done| |].
  all: pose proof (digits2_pos_bounds p) as [Hlo _].
  all: apply Z.lt_pred_le, (Z.pow_lt_mono_r_iff 2); [lia|lia|];
       rewrite <- Z.sub_1_r; lia.
Qed.

Lemma Zdigits2_mono a b : 0 ≤ a ≤ b → Zdigits2 a ≤ Zdigits2 b.
Proof.
  intros Hab. apply Zdigits2_le; [apply Zdigits2_nonneg|].
  pose proof (Zdigits2_lt b). lia.
Qed.

Lemma Zdigits2_succ m : 0 ≤ m → Zdigits2 (m + 1) ≤ Zdigits2 m + 1.
Proof.
  intros Hm. pose proof (Zdigits2_nonneg m). pose proof (Zdigits2_lt m).
  apply Zdigits2_le; [lia|].
  rewrite Z.pow_add_r by lia. lia.
Qed.

Lemma Zdigits2_mul a b : Zdigits2 (a * b) ≤ Zdigits2 a + Zdigits2 b.
Proof.
  pose proof (Zdigits2_nonneg a). pose proof (Zdigits2_nonneg b).
  pose proof (Zdigits2_lt a). pose proof (Zdigits2_lt b).
  apply Zdigits2_le; [lia|].
  rewrite Z.pow_add_r, Z.abs_mul by lia. nia.
Qed.

Lemma Zdigits2_shift a s : 0 ≤ s → Zdigits2 (a * 2 ^ s) ≤ Zdigits2 a + s.
Proof.
  intros Hs. pose proof (Zdigits2_nonneg a). pose proof (Zdigits2_lt a).
  apply Zdigits2_le; [lia|].
  rewrite Z.pow_add_r, Z.abs_mul by lia.
  assert (0 < 2 ^ s) by (apply Z.pow_pos_nonneg; lia).
  rewrite (Z.abs_eq (2 ^ s)) by lia. nia.
Qed.

(** A shift to the right by one digit takes one digit away, and the
    rounding that follows adds at most one. *)
Lemma shr_1_spec r :
  0 ≤ shr_m r →
  0 ≤ shr_m (shr_1 r)
  ∧ Zdigits2 (shr_m (shr_1 r)) ≤ Z.max 0 (Zdigits2 (shr_m r) - 1).
Proof.
  destruct r as [m rb sb]. cbn [shr_m]. intros Hm.
  destruct m as [|[p|p|]|p]; cbn [shr_1 shr_m Zdigits2 digits2_pos]; lia.
Qed.

Lemma iter_pos_shr p : ∀ r k,
  0 ≤ shr_m r → Zdigits2 (shr_m r) ≤ k →
  0 ≤ shr_m (SpecFloat.iter_pos shr_1 p r)
  ∧ Zdigits2 (shr_m (SpecFloat.iter_pos shr_1 p r)) ≤ Z.max 0 (k - Zpos p).
Proof.
  induction p as [p IH|p IH|]; intros r k Hr Hk; cbn [SpecFloat.iter_pos].
  - destruct (shr_1_spec r Hr) as [H1 H1'].
    destruct (IH (shr_1 r) (Z.max 0 (k - 1)) H1 ltac:(lia)) as [H2 H2'].
    destruct (IH _ _ H2 H2') as [H3 H3']. split; [done|lia].
  - destruct (IH r k Hr Hk) as [H2 H2'].
    destruct (IH _ _ H2 H2') as [H3 H3']. split; [done|lia].
  - destruct (shr_1_spec r Hr) as [H1 H1']. split; [done|lia].
Qed.

Lemma shr_m_of_loc m l : shr_m (shr_record_of_loc m l) = m.
Proof. by destruct l as [|[]]. Qed.

Lemma shr_fexp_spec m e l mrs e' :
  0 ≤ m → shr_fexp Double.prec Double.emax m e l = (mrs, e') →
  0 ≤ shr_m mrs
  ∧ e' ≤ Z.max e (Z.max (Zdigits2 m + e - 53) (-1074))
  ∧ Zdigits2 (shr_m mrs) + e' ≤ Z.max e' (Zdigits2 m + e).
Proof.
  intros Hm. unfold shr_fexp, shr. rewrite fexp_eq.
  destruct (Z.max (Zdigits2 m + e - 53) (-1074) - e) as [|p|p] eqn:Hn.
  - intros [= <- <-]. rewrite shr_m_of_loc. lia.
  - intros [= <- <-].
    destruct (iter_pos_shr p (shr_record_of_loc m l) (Zdigits2 m))
      as [H1 H2]; rewrite ?shr_m_of_loc; [done|lia|].
    split; [done|]. split; lia.
  - intros [= <- <-]. rewrite shr_m_of_loc. lia.
Qed.

Lemma round_nearest_even_spec m l :
  0 ≤ m →
  0 ≤ round_nearest_even m l
  ∧ Zdigits2 (round_nearest_even m l) ≤ Zdigits2 m + 1.
Proof.
  intros Hm. pose proof (Zdigits2_succ m Hm).
  destruct l as [|[]]; cbn [round_nearest_even];
    try destruct (Z.even m); lia.
Qed.

Lemma steady_mono x b b' : steady x b → b ≤ b' → steady x b'.
Proof. destruct x; cbn; lia. Qed.

(** Rounding a number below [2 ^ b] gives a zero or a finite number
    below [2 ^ (b + 1)]: it does not overflow. *)
Lemma binary_round_aux_steady sx mx ex lx b :
  0 ≤ mx → Zdigits2 mx + ex ≤ b → ex ≤ b → 0 ≤ b ≤ 970 →
  steady (binary_round_aux Double.prec Double.emax sx mx ex lx) (b + 1).
Proof.
  intros Hm Hd He Hb. unfold binary_round_aux.
  destruct (shr_fexp Double.prec Double.emax mx ex lx) as [mrs' e'] eqn:H1.
  apply shr_fexp_spec in H1 as (Hm' & He' & Hd'); [|done].
  destruct (round_nearest_even_spec (shr_m mrs') (loc_of_shr_record mrs') Hm')
    as [Hr Hrd].
  destruct (shr_fexp Double.prec Double.emax _ e' loc_Exact) as [mrs'' e''] eqn:H2.
  apply shr_fexp_spec in H2 as (Hm'' & He'' & Hd''); [|done].
  destruct (shr_m mrs'') as [|m|m] eqn:Hm3; [done| |lia].
  cbn [Zdigits2] in Hd''.
  replace (e'' <=? Double.emax - Double.prec) with true
    by (symmetry; apply Z.leb_le; unfold Double.emax, Double.prec; lia).
  cbn [steady]. lia.
Qed.

(** Shifts to the left, which align the exponents of two numbers. *)
Lemma digits2_pos_iter mx d :
  Zpos (digits2_pos (Pos.iter xO mx d)) = Zpos (digits2_pos mx) + Zpos d.
Proof.
  induction d as [|d IH] using Pos.peano_ind.
  - cbn [Pos.iter digits2_pos]. lia.
  - rewrite Pos.iter_succ. cbn [digits2_pos]. lia.
Qed.

Lemma shl_align_spec mx ex ex' :
  ex' ≤ ex →
  snd (shl_align mx ex ex') = ex'
  ∧ Zpos (digits2_pos (fst (shl_align mx ex ex'))) + ex'
    = Zpos (digits2_pos mx) + ex.
Proof.
  intros Hle. unfold shl_align.
  destruct (ex' - ex) as [|d|d] eqn:Hd; cbn [fst snd]; [lia|lia|].
  rewrite digits2_pos_iter. lia.
Qed.

Lemma binary_round_steady sx mx ex b :
  Zpos (digits2_pos mx) + ex ≤ b → 0 ≤ b ≤ 970 →
  steady (binary_round Double.prec Double.emax sx mx ex) (b + 1).
Proof.
  intros Hd Hb. unfold binary_round.
  destruct (shl_align mx ex _) as [mz ez] eqn:Hs.
  assert (Zpos (digits2_pos mz) + ez = Zpos (digits2_pos mx) + ex ∧ ez ≤ ex)
    as [Hz Hez].
  { revert Hs. unfold shl_align.
    destruct (_ - ex) as [|d|d] eqn:Hd'; intros [= <- <-]; [lia|lia|].
    rewrite digits2_pos_iter. lia. }
  apply binary_round_aux_steady; cbn [Zdigits2]; lia.
Qed.

Lemma binary_normalize_steady m e szero b :
  Zdigits2 m + e ≤ b → 0 ≤ b ≤ 970 →
  steady (binary_normalize Double.prec Double.emax m e szero) (b + 1).
Proof.
  intros Hd Hb. destruct m as [|p|p]; cbn [binary_normalize Zdigits2] in *;
    [done| |]; by apply binary_round_steady.
Qed.

(** The operations of [Js.Double] on such numbers. *)
Lemma ofZ_steady n b :
  Z.abs n < 2 ^ b → 0 ≤ b ≤ 970 → steady (Double.ofZ n) (b + 1).
Proof.
  intros Hn Hb. unfold Double.ofZ. apply binary_normalize_steady; [|done].
  pose proof (Zdigits2_le n b). lia.
Qed.

Lemma mul_steady x y bx by' :
  steady x bx → steady y by' → 0 ≤ bx → 0 ≤ by' → bx + by' ≤ 970 →
  steady (Double.mul x y) (bx + by' + 1).
Proof.
  intros Hx Hy Hbx Hby Hb.
  destruct x as [sx|sx| |sx mx ex], y as [sy|sy| |sy my ey];
    unfold Double.mul; cbn [steady SFmul] in *; try done.
  apply binary_round_aux_steady; [lia| |lia|lia].
  pose proof (Zdigits2_mul (Zpos mx) (Zpos my)) as Hd.
  change (Z.pos mx * Z.pos my) with (Z.pos (mx * my)) in Hd.
  cbn [Zdigits2] in *. lia.
Qed.

(** Division by a finite number whose exponent is at least [- c]. *)
Lemma div_steady x sy my ey bx c :
  steady x bx → - c ≤ ey → 0 ≤ bx + c ≤ 970 →
  steady (Double.div x (S754_finite sy my ey)) (bx + c + 1).
Proof.
  intros Hx Hc Hb.
  destruct x as [sx|sx| |sx mx ex]; unfold Double.div; cbn [steady SFdiv] in *; try done.
  unfold SFdiv_core_binary.
  set (e' := Z.min _ _).
  assert (e' ≤ ex - ey) as He' by (subst e'; lia).
  set (m' := match ex - ey - e' with
             | 0 => Z.pos mx
             | Z.pos _ => Z.shiftl (Z.pos mx) (ex - ey - e')
             | Z.neg _ => 0
             end).
  assert (0 ≤ m' ∧ Zdigits2 m' ≤ Zpos (digits2_pos mx) + (ex - ey - e'))
    as [Hm' Hd'].
  { subst m'. destruct (ex - ey - e') as [|s|s] eqn:Hs; [cbn; lia| |lia].
    rewrite Z.shiftl_mul_pow2 by lia. split; [lia|].
    pose proof (Zdigits2_shift (Z.pos mx) (Z.pos s)) as Hsh.
    cbn [Zdigits2] in Hsh. lia. }
  pose proof (Z.div_eucl_eq m' (Z.pos my) ltac:(lia)) as Heq.
  pose proof (Z.mod_pos_bound m' (Z.pos my) ltac:(lia)) as Hmod.
  unfold Z.modulo in Hmod.
  destruct (Z.div_eucl m' (Z.pos my)) as [q r].
  assert (0 ≤ q ≤ m') as Hq by nia.
  pose proof (Zdigits2_mono q m' Hq).
  apply binary_round_aux_steady; lia.
Qed.

Lemma shl_align_lt mx ex ez b :
  ez ≤ ex → Zpos (digits2_pos mx) + ex ≤ b →
  Zpos (fst (shl_align mx ex ez)) < 2 ^ (b - ez).
Proof.
  intros Hle Hb. destruct (shl_align_spec mx ex ez Hle) as [_ Hd].
  pose proof (digits2_pos_bounds (fst (shl_align mx ex ez))) as [_ Hlt].
  eapply Z.lt_le_trans; [exact Hlt|].
  apply Z.pow_le_mono_r; lia.
Qed.

Lemma aligned_steady (a c : Z) ez b szero :
  Z.abs a < 2 ^ (b - ez) → Z.abs c < 2 ^ (b - ez) → ez < b →
  0 ≤ b ≤ 969 →
  steady (binary_normalize Double.prec Double.emax (a + c) ez szero) (b + 2).
Proof.
  intros Ha Hc Hez Hb.
  replace (b + 2) with (b + 1 + 1) by lia.
  apply binary_normalize_steady; [|lia].
  pose proof (Zdigits2_le (a + c) (b - ez + 1)) as Hd.
  rewrite Z.pow_add_r in Hd by lia. lia.
Qed.

Lemma add_steady x y b :
  steady x b → steady y b → 0 ≤ b ≤ 969 →
  steady (Double.add x y) (b + 2).
Proof.
  intros Hx Hy Hb.
  destruct x as [sx|sx| |sx mx ex], y as [sy|sy| |sy my ey];
    unfold Double.add; cbn [steady SFadd] in *; try done; try lia.
  - by destruct sx, sy.
  - apply aligned_steady; [| |lia|done].
    + destruct sx; cbn [cond_Zopp Z.opp Z.abs];
        apply shl_align_lt; lia.
    + destruct sy; cbn [cond_Zopp Z.opp Z.abs];
        apply shl_align_lt; lia.
Qed.

Lemma sub_steady x y b :
  steady x b → steady y b → 0 ≤ b ≤ 969 →
  steady (Double.sub x y) (b + 2).
Proof.
  intros Hx Hy Hb.
  destruct x as [sx|sx| |sx mx ex], y as [sy|sy| |sy my ey];
    unfold Double.sub; cbn [steady SFsub] in *; try done; try lia.
  - by destruct sx, sy.
  - rewrite <- Z.add_opp_r. apply aligned_steady; [| |lia|done].
    + destruct sx; cbn [cond_Zopp Z.opp Z.abs];
        apply shl_align_lt; lia.
    + rewrite Z.abs_opp. destruct sy; cbn [cond_Zopp Z.opp Z.abs];
        apply shl_align_lt; lia.
Qed.

(** The divisors of the damage formula. *)
Lemma ofZ_100 : Double.ofZ 100 = S754_finite false 7036874417766400 (-46).
Proof. reflexivity. Qed.

Lemma ofZ_2 : Double.ofZ 2 = S754_finite false 4503599627370496 (-51).
Proof. reflexivity. Qed.

Lemma div_100_steady x b :
  steady x b → 0 ≤ b ≤ 900 →
  steady (Double.div x (Double.ofZ 100)) (b + 46 + 1).
Proof. intros Hx Hb. rewrite ofZ_100. apply div_steady; [done|lia|lia]. Qed.

Lemma div_2_steady x b :
  steady x b → 0 ≤ b ≤ 900 →
  steady (Double.div x (Double.ofZ 2)) (b + 51 + 1).
Proof. intros Hx Hb. rewrite ofZ_2. apply div_steady; [done|lia|lia]. Qed.

(** [Math.floor] of such a number is an integer. *)
Lemma floor_steady x b : steady x b → ∃ n, Double.floor x = Some n.
Proof. destruct x; cbn [steady Double.floor]; [eauto|done|done|eauto]. Qed.

End DoubleFacts.

(** ** Reachability: [calculateValidMoves] *)

Module ReachabilityFacts.
Import TimeDriven Reachability.

Lemma inBounds_spec sz x y :
  inBounds sz x y = true ↔ (0 ≤ x < width sz) ∧ (0 ≤ y < height sz).
Proof. unfold inBounds. rewrite !andb_true_iff. lia. Qed.

(** The engine's [directions] and bounds test are those of the
    specification. *)
Lemma directions_steps : directions = steps.
Proof. reflexivity. Qed.

Lemma inBounds_inside sz x y : inBounds sz x y = inside sz x y.
Proof. reflexivity. Qed.

Lemma steps_adjacent d : d ∈ steps → Z.abs d.1 + Z.abs d.2 = 1.
Proof.
  unfold steps. rewrite !elem_of_cons, elem_of_nil.
  intros [->|[->|[->|[->|[]]]]]; reflexivity.
Qed.

Lemma elem_of_tiles sz x y : (x, y) ∈ tiles sz ↔ inBounds sz x y = true.
Proof.
  rewrite inBounds_spec. unfold tiles.
  rewrite list_elem_of_In, in_flat_map. split.
  - intros (y' & Hy'%list_elem_of_In%elem_of_range
                 & Hx%list_elem_of_In%list_elem_of_fmap).
    destruct Hx as (x' & [= -> ->] & Hx'%elem_of_range). lia.
  - intros [Hx Hy]. exists y. split.
    + apply list_elem_of_In, elem_of_range. lia.
    + apply list_elem_of_In, list_elem_of_fmap. exists x. split; [done|].
      apply elem_of_range. lia.
Qed.

Lemma length_tiles sz :
  length (tiles sz) = Z.to_nat (width sz * height sz) ∨ length (tiles sz) = 0%nat.
Proof.
  unfold tiles.
  assert (∀ l : list Z,
            length (flat_map (λ y, (λ x, (x, y)) <$> range 0 (width sz - 1)) l)
            = (length l * Z.to_nat (width sz))%nat) as Hlen.
  { induction l as [|y l IH]; simpl; [done|].
    rewrite length_app, IH, length_fmap, length_range. f_equal. lia. }
  rewrite Hlen, length_range.
  destruct (Z.le_gt_cases (height sz) 0); [right; lia|].
  destruct (Z.le_gt_cases (width sz) 0); [right; lia|].
  left. lia.
Qed.

Lemma unseen_le sz seen : (unseen sz seen ≤ Z.to_nat (width sz * height sz))%nat.
Proof.
  unfold unseen. etrans; [apply length_filter|].
  destruct (length_tiles sz) as [-> | ->]; lia.
Qed.

Lemma unseen_insert sz seen c :
  c ∈ tiles sz → c ∉ seen →
  (unseen sz ({[ c ]} ∪ seen) < unseen sz seen)%nat.
Proof.
  unfold unseen. generalize (tiles sz). intros l.
  assert (∀ l : list (Z * Z),
            (length (filter (λ c', c' ∉ {[ c ]} ∪ seen) l)
             ≤ length (filter (λ c', c' ∉ seen) l))%nat) as Hle.
  { induction l0 as [|c' l0 IH]; [done|].
    rewrite !filter_cons.
    destruct (decide (c' ∉ {[c]} ∪ seen)), (decide (c' ∉ seen));
      simpl; try lia. set_solver. }
  induction l as [|c' l IH]; intros Hin Hc.
  - by apply elem_of_nil in Hin.
  - rewrite !filter_cons.
    apply elem_of_cons in Hin as [<- | Hin].
    + rewrite decide_False by set_solver. rewrite decide_True by done.
      simpl. specialize (Hle l). lia.
    + specialize (IH Hin Hc).
      destruct (decide (c' ∉ {[c]} ∪ seen)), (decide (c' ∉ seen));
        simpl; try lia. set_solver.
Qed.


Lemma marks_insert a s nx ny x y :
  marks a s →
  (if decide (x = nx ∧ y = ny) then Some true else cell a x y) = Some true
  ↔ (x, y) ∈ ({[ (nx, ny) ]} ∪ s : gset (Z * Z)).
Proof.
  intros Hm. rewrite elem_of_union, elem_of_singleton, <- (Hm x y).
  case_decide as Hxy.
  - destruct Hxy as [Hx Hy]. rewrite Hx, Hy. tauto.
  - split; [tauto|]. intros [[= Hx Hy]|?]; tauto.
Qed.

Section Search.
Variable sz : Size.
Variable grid : list (list Tile).
Variable u : Unit.

Abbreviation onBoard := (λ i, inBounds sz (qx i) (qy i) = true).

(** What one [enqueue] does to the frontier and to the seen set. *)
Lemma enqueue_cases cur seen q d :
  let n := (qx cur + d.1, qy cur + d.2) in
  enqueue sz grid u cur (seen, q) d = (seen, q)
  ∨ (∃ t, cell grid n.1 n.2 = Some t
          ∧ inBounds sz n.1 n.2 = true
          ∧ (n ∉ seen)
          ∧ admits u t = true
          ∧ stepCost t ≤ movesLeft cur
          ∧ enqueue sz grid u cur (seen, q) d
            = ({[ n ]} ∪ seen,
               q ++ [mkItem n.1 n.2 (movesLeft cur - stepCost t)])).
Proof.
  unfold enqueue. rewrite <- inBounds_inside. simpl.
  destruct (cell grid _ _) as [t|] eqn:Ht; [|by left].
  destruct (inBounds _ _ _) eqn:Hin; [|by left].
  case_bool_decide as Hnew; [|by left].
  destruct (admits u t) eqn:Ha; [|by left].
  destruct (Z.leb_spec (stepCost t) (movesLeft cur)); [|by left].
  simpl. right. by exists t.
Qed.

Lemma enqueue_measure cur ds : ∀ seen q,
  Forall onBoard q →
  let r := foldl (enqueue sz grid u cur) (seen, q) ds in
  Forall onBoard r.2
  ∧ (length r.2 + unseen sz r.1 ≤ length q + unseen sz seen)%nat.
Proof.
  induction ds as [|d ds IH]; intros seen q Hq; simpl; [done|].
  destruct (enqueue_cases cur seen q d)
    as [-> | (t & _ & Hin & Hnew & _ & _ & ->)].
  - by apply IH.
  - simpl in *. set (n := (qx cur + d.1, qy cur + d.2)) in *.
    destruct (IH ({[ n ]} ∪ seen)
                (q ++ [mkItem n.1 n.2 (movesLeft cur - stepCost t)]))
      as [Hb Hle].
    { apply Forall_app. split; [done|]. by apply Forall_singleton. }
    split; [done|].
    rewrite length_app in Hle. simpl in Hle.
    pose proof (unseen_insert sz seen n
                  (proj2 (elem_of_tiles sz _ _) Hin) Hnew) as Hlt.
    lia.
Qed.

Lemma search_mono rounds : ∀ reached seen frontier,
  reached ⊆ search sz grid u rounds reached seen frontier.
Proof.
  induction rounds as [|rounds IH]; intros reached seen frontier.
  - by destruct frontier.
  - destruct frontier as [|cur rest]; [done|]. cbn [search].
    destruct (foldl (enqueue sz grid u cur) (seen, rest) steps)
      as [seen1 queue1].
    etrans; [|apply IH]. set_solver.
Qed.

(** Every tile of the frontier, and every tile reached, is the end of
    a path from the origin within the budget. *)
Section Paths.
Variable origin : Z * Z.
Variable budget : Z.

Abbreviation justified :=
  (λ i, ∃ k, pathCost sz grid u origin (qx i, qy i) k
             ∧ movesLeft i = budget - k ∧ k ≤ budget).
Abbreviation within :=
  (λ c, ∃ k, pathCost sz grid u origin c k ∧ k ≤ budget).

Lemma enqueue_justified cur ds : ∀ seen q,
  ds ⊆ steps → justified cur → Forall justified q →
  Forall justified (foldl (enqueue sz grid u cur) (seen, q) ds).2.
Proof.
  induction ds as [|d ds IH]; intros seen q Hds Hcur Hq;
    cbn [foldl]; [done|].
  assert (d ∈ steps) as Hd by set_solver.
  assert (ds ⊆ steps) as Hds' by set_solver.
  destruct (enqueue_cases cur seen q d)
    as [-> | (t & Ht & Hin & _ & Ha & Hcost & ->)]; [by apply IH|].
  apply IH; [done..|].
  apply Forall_app. split; [done|]. apply Forall_singleton.
  destruct Hcur as (k & Hpath & Hleft & Hk).
  exists (k + stepCost t). cbn [qx qy movesLeft fst snd] in *.
  split; [|lia].
  apply inBounds_spec in Hin as [Hx Hy].
  apply (path_step sz grid u origin (qx cur, qy cur) _ k t);
    cbn [fst snd]; [done| |done..].
  pose proof (steps_adjacent d Hd).
  by replace (qx cur + d.1 - qx cur) with d.1 by lia;
     replace (qy cur + d.2 - qy cur) with d.2 by lia.
Qed.

Lemma search_within rounds : ∀ reached seen frontier,
  (∀ c, c ∈ reached → within c) → Forall justified frontier →
  ∀ c, c ∈ search sz grid u rounds reached seen frontier → within c.
Proof.
  induction rounds as [|rounds IH]; intros reached seen frontier Hr Hf.
  - by destruct frontier.
  - destruct frontier as [|cur rest]; [done|]. cbn [search].
    apply Forall_cons in Hf as [Hcur Hrest].
    pose proof (enqueue_justified cur steps seen rest
                  (reflexivity _) Hcur Hrest) as Hq.
    destruct (foldl (enqueue sz grid u cur) (seen, rest) steps)
      as [seen1 queue1]. cbn [snd] in Hq.
    apply IH; [|done].
    intros c [->%elem_of_singleton|Hc]%elem_of_union; [|by apply Hr].
    destruct Hcur as (k & Hpath & _ & Hk). by exists k.
Qed.

End Paths.

End Search.

Section Simulation.
Variable STATS : UnitName → UnitStats.
Variable sz : Size.
Variable grid : list (list Tile).
Variable u : Unit.
Hypothesis Hgrid : shaped (width sz) (height sz) grid.

Abbreviation masked := (shaped (A:=bool) (width sz) (height sz)).
Abbreviation onBoard := (λ i, inBounds sz (qx i) (qy i) = true).

Lemma moveCost_stepCost t : moveCost t = stepCost t.
Proof. unfold moveCost, stepCost. by destruct (terrain t). Qed.

Lemma visitNeighbour_enqueue cur visited q seen d :
  masked visited → marks visited seen →
  ∃ visited',
    visitNeighbour sz grid u cur (visited, q) d
    = Ok (visited', (enqueue sz grid u cur (seen, q) d).2)
    ∧ masked visited'
    ∧ marks visited' (enqueue sz grid u cur (seen, q) d).1.
Proof.
  intros Hv Hm. unfold visitNeighbour, enqueue, inside.
  change ((0 <=? ?a) && (?a <? width sz) && (0 <=? ?b) && (?b <? height sz))
    with (inBounds sz a b).
  simpl.
  set (nx := qx cur + d.1). set (ny := qy cur + d.2).
  destruct (inBounds sz nx ny) eqn:Hin.
  - apply inBounds_spec in Hin as [Hx Hy].
    rewrite (index2_shaped _ _ _ _ _ Hv) by done. simpl.
    destruct (cell_inside _ _ _ _ _ Hgrid Hx Hy) as [t Ht].
    destruct (cell_inside _ _ _ _ _ Hv Hx Hy) as [b Hb].
    rewrite Ht, Hb. simpl. destruct b; simpl.
    + apply Hm in Hb. rewrite bool_decide_eq_false_2 by tauto.
      simpl. by exists visited.
    + assert ((nx, ny) ∉ seen) as Hnew.
      { intros Hs%Hm. congruence. }
      rewrite bool_decide_eq_true_2 by done. simpl.
      unfold tileAt. rewrite (index2_shaped _ _ _ _ _ Hgrid) by done.
      simpl. rewrite Ht. simpl.
      change (passable u t) with (admits u t).
      destruct (admits u t); simpl; [|by exists visited].
      rewrite moveCost_stepCost.
      replace (0 <=? movesLeft cur - stepCost t)
        with (stepCost t <=? movesLeft cur)
        by (apply eq_iff_eq_true; rewrite !Z.leb_le; lia).
      destruct (stepCost t <=? movesLeft cur); [|by exists visited].
      destruct (assign2_shaped _ _ visited nx ny true Hv Hx Hy)
        as (visited' & -> & Hv' & Hcell).
      simpl. exists visited'. split; [done|]. split; [done|].
      intros x y. rewrite Hcell. by apply marks_insert.
  - exists visited. by destruct (cell grid nx ny).
Qed.

Lemma visits_enqueues cur ds : ∀ visited q seen,
  masked visited → marks visited seen →
  ∃ visited',
    foldlM (visitNeighbour sz grid u cur) ds (visited, q)
    = Ok (visited', (foldl (enqueue sz grid u cur) (seen, q) ds).2)
    ∧ masked visited'
    ∧ marks visited' (foldl (enqueue sz grid u cur) (seen, q) ds).1.
Proof.
  induction ds as [|d ds IH]; intros visited q seen Hv Hm;
    cbn [foldlM foldl].
  - by exists visited.
  - destruct (visitNeighbour_enqueue cur visited q seen d Hv Hm)
      as (visited1 & -> & Hv1 & Hm1).
    destruct (enqueue sz grid u cur (seen, q) d) as [seen1 q1] eqn:He.
    cbn [mbind result_bind fst snd] in *. by apply IH.
Qed.

Lemma searchLoop_search fuel : ∀ moves visited queue reached seen,
  masked moves → masked visited →
  marks moves reached → marks visited seen →
  Forall onBoard queue →
  (length queue + unseen sz seen ≤ fuel)%nat →
  ∃ moves',
    searchLoop sz fuel grid u moves visited queue = Ok moves'
    ∧ masked moves'
    ∧ marks moves' (search sz grid u fuel reached seen queue).
Proof.
  induction fuel as [|fuel IH];
    intros moves visited queue reached seen Hm Hv Hmr Hvs Hq Hfuel.
  - destruct queue; simpl in *; [|lia]. by exists moves.
  - destruct queue as [|cur rest]; [by exists moves|].
    cbn [searchLoop search]. rewrite <- directions_steps.
    apply Forall_cons in Hq as [[Hx Hy]%inBounds_spec Hrest].
    destruct (assign2_shaped _ _ moves (qx cur) (qy cur) true Hm Hx Hy)
      as (moves1 & -> & Hm1 & Hcell).
    destruct (visits_enqueues cur directions visited rest seen Hv Hvs)
      as (visited1 & -> & Hv1 & Hvs1).
    destruct (enqueue_measure sz grid u cur directions seen rest Hrest)
      as [Hq1 Hle].
    destruct (foldl (enqueue sz grid u cur) (seen, rest) directions)
      as [seen1 queue1].
    cbn [mbind result_bind fst snd length] in *.
    apply IH; try done; [|lia].
    intros x y. rewrite Hcell. by apply marks_insert.
Qed.

End Simulation.

(** The mask of [calculateValidMoves] is the set of the search. *)
Lemma calculateValidMoves_search STATS sz grid x y t u n :
  shaped (width sz) (height sz) grid →
  cell grid x y = Some t → unit t = Some u → type u = Some n →
  ∃ moves,
    calculateValidMoves STATS sz grid x y = Ok moves
    ∧ shaped (width sz) (height sz) moves
    ∧ marks moves (reachableTiles STATS sz grid x y)
    ∧ reachableTiles STATS sz grid x y
      = search sz grid u (searchFuel sz) ∅ {[ (x, y) ]}
          [mkItem x y (movement (STATS n))].
Proof.
  intros Hgrid Ht Hu Hn.
  destruct (cell_bounds _ _ _ _ _ _ Hgrid Ht) as [Hx Hy].
  unfold calculateValidMoves, reachableTiles, tileAt.
  rewrite (index2_shaped _ _ _ _ _ Hgrid), Ht by done.
  cbn [mbind result_bind defined]. rewrite Hu.
  unfold statsOf. rewrite Hn. cbn [mbind result_bind defined].
  destruct (assign2_shaped _ _ (blank sz) x y true
              (filled_shaped _ _ false) Hx Hy)
    as (visited & -> & Hv & Hcell). cbn [mbind result_bind].
  destruct (searchLoop_search sz grid u Hgrid (searchFuel sz) (blank sz)
              visited [mkItem x y (movement (STATS n))] ∅ {[ (x, y) ]})
    as (moves & Hmoves & Hshape & Hmarks).
  - apply filled_shaped.
  - done.
  - intros x' y'. split; [|set_solver].
    by intros ?%filled_cell.
  - intros x' y'. rewrite Hcell.
    rewrite (marks_insert (blank sz) ∅); [set_solver|].
    intros x'' y''. split; [|set_solver]. by intros ?%filled_cell.
  - apply Forall_singleton. by apply inBounds_spec.
  - pose proof (unseen_insert sz ∅ (x, y)) as Hlt.
    pose proof (unseen_le sz ∅). unfold searchFuel.
    assert (({[(x, y)]} ∪ ∅ : gset (Z * Z)) = {[(x, y)]}) as Heq
      by set_solver.
    rewrite Heq in Hlt. cbn [length].
    specialize (Hlt (proj2 (elem_of_tiles sz x y)
                       (proj2 (inBounds_spec sz x y) (conj Hx Hy)))).
    specialize (Hlt (not_elem_of_empty _)). lia.
  - exists moves. done.
Qed.

(** The search reaches its origin. *)
Lemma origin_reached STATS sz grid x y t u n :
  shaped (width sz) (height sz) grid →
  cell grid x y = Some t → unit t = Some u → type u = Some n →
  (x, y) ∈ reachableTiles STATS sz grid x y.
Proof.
  intros Hgrid Ht Hu Hn.
  destruct (calculateValidMoves_search STATS sz grid x y t u n
              Hgrid Ht Hu Hn) as (_ & _ & _ & _ & ->).
  destruct (cell_bounds _ _ _ _ _ _ Hgrid Ht) as [Hx Hy].
  unfold searchFuel.
  destruct (Z.to_nat (width sz * height sz)) as [|rounds] eqn:Hfuel; [nia|].
  cbn [search].
  destruct (foldl _ _ steps) as [seen1 queue1].
  apply (search_mono sz grid u rounds). set_solver.
Qed.

(** C1.  On a board of the declared size, [calculateValidMoves] for the
    unit at [(x, y)] returns the mask of the tiles that the breadth-first
    search of the specification reaches: steps to the four tiles at
    Manhattan distance 1 ([Reachability.steps]), a neighbour enqueued
    only in bounds, not yet visited, and unoccupied or held by the
    mover's own faction, at a step cost of 2 into a mountain and 1
    otherwise.  A tile is marked only if some path of such steps from
    the origin has a cumulative cost within the unit's movement
    budget. *)
Theorem calculateValidMoves_breadth_first STATS sz grid x y t u n :
  shaped (width sz) (height sz) grid →
  cell grid x y = Some t → unit t = Some u → type u = Some n →
  0 ≤ movement (STATS n) →
  ∃ moves,
    calculateValidMoves STATS sz grid x y = Ok moves
    ∧ shaped (width sz) (height sz) moves
    ∧ marks moves (reachableTiles STATS sz grid x y)
    ∧ ∀ tx ty, cell moves tx ty = Some true →
        ∃ k, pathCost sz grid u (x, y) (tx, ty) k
             ∧ k ≤ movement (STATS n).
Proof.
  intros Hgrid Ht Hu Hn Hbudget.
  destruct (calculateValidMoves_search STATS sz grid x y t u n
              Hgrid Ht Hu Hn) as (moves & Hmoves & Hshape & Hmarks & Heq).
  exists moves. split; [done|]. split; [done|]. split; [done|].
  intros tx ty Hc%Hmarks. rewrite Heq in Hc.
  apply (search_within sz grid u (x, y) (movement (STATS n))
           (searchFuel sz) ∅ {[ (x, y) ]}
           [mkItem x y (movement (STATS n))]); [set_solver| |done].
  apply Forall_singleton. exists 0. cbn [qx qy movesLeft].
  split; [constructor|lia].
Qed.

End ReachabilityFacts.

(** The theorem at the start of a match: player 1's infantry at [(2, 2)],
    with a mountain to its right. *)
Lemma calculateValidMoves_breadth_first_witness :
  let grid := Samples.Time.ridge in
  let u := TimeDriven.mkUnit (Some TimeDriven.infantry) TimeDriven.P1 100 in
  let t := TimeDriven.mkTile TimeDriven.base (Some u) (Some TimeDriven.P1) in
  shaped 12 10 grid
  ∧ cell grid 2 2 = Some t
  ∧ ∃ moves,
      TimeDriven.calculateValidMoves TimeDriven.UNIT_STATS
        TimeDriven.gridSize grid 2 2 = Ok moves
      ∧ shaped 12 10 moves
      ∧ Reachability.marks moves
          (Reachability.reachableTiles TimeDriven.UNIT_STATS
             TimeDriven.gridSize grid 2 2)
      ∧ ∀ tx ty, cell moves tx ty = Some true →
          ∃ k, Reachability.pathCost TimeDriven.gridSize grid u
                 (2, 2) (tx, ty) k
               ∧ k ≤ 3.
Proof.
  intros grid u t.
  assert (shaped 12 10 grid) as Hgrid
    by (split; [reflexivity | repeat constructor]).
  split; [exact Hgrid|]. split; [reflexivity|].
  apply (ReachabilityFacts.calculateValidMoves_breadth_first
           TimeDriven.UNIT_STATS TimeDriven.gridSize grid 2 2 t u
           TimeDriven.infantry Hgrid);
    [reflexivity | reflexivity | reflexivity | simpl; lia].
Defined.

(** ** The turn-driven board *)

Module BoardFacts.
Import TurnDriven Census.

Section Board.
Variable size : Z.
Variable grid : list (list Tile).
Hypothesis Hgrid : shaped size size grid.

Lemma tileAt_cell x y t : cell grid x y = Some t → tileAt grid x y = Ok t.
Proof.
  intros Ht. destruct (cell_bounds _ _ _ _ _ _ Hgrid Ht) as [_ Hy].
  unfold tileAt. by rewrite (index2_shaped _ _ _ _ _ Hgrid), Ht.
Qed.

Lemma tileAt_inside x y :
  0 ≤ x < size → 0 ≤ y < size →
  ∃ t, cell grid x y = Some t ∧ tileAt grid x y = Ok t.
Proof.
  intros Hx Hy. destruct (cell_inside _ _ _ _ _ Hgrid Hx Hy) as [t Ht].
  exists t. split; [done|]. by apply tileAt_cell.
Qed.

Lemma setUnit_cell x y t o :
  cell grid x y = Some t →
  ∃ grid', setUnit grid x y o = Ok grid'
    ∧ shaped size size grid'
    ∧ ∀ x' y', cell grid' x' y' =
               if decide (x' = x ∧ y' = y)
               then Some (mkTile (tilePosition t) (terrain t) o)
               else cell grid x' y'.
Proof.
  intros Ht. destruct (cell_bounds _ _ _ _ _ _ Hgrid Ht) as [Hx Hy].
  unfold setUnit. rewrite (tileAt_cell _ _ _ Ht). cbn [mbind result_bind].
  apply (assign2_shaped _ _ _ _ _ _ Hgrid Hx Hy).
Qed.

Lemma setTerrain_cell x y t c :
  cell grid x y = Some t →
  ∃ grid', setTerrain grid x y c = Ok grid'
    ∧ shaped size size grid'
    ∧ ∀ x' y', cell grid' x' y' =
               if decide (x' = x ∧ y' = y)
               then Some (mkTile (tilePosition t) c (unit t))
               else cell grid x' y'.
Proof.
  intros Ht. destruct (cell_bounds _ _ _ _ _ _ Hgrid Ht) as [Hx Hy].
  unfold setTerrain. rewrite (tileAt_cell _ _ _ Ht). cbn [mbind result_bind].
  apply (assign2_shaped _ _ _ _ _ _ Hgrid Hx Hy).
Qed.

(** The counting loop of [attackUnit] counts the live units. *)
Abbreviation tally p l :=
  (Z.of_nat (length (filter (λ c : Z * Z, heldBy grid p c = true) l))).

Lemma tally_cons p c l :
  tally p (c :: l) = (if heldBy grid p c then 1 else 0) + tally p l.
Proof.
  rewrite filter_cons. destruct (heldBy grid p c); case_decide; try done;
    cbn [length]; lia.
Qed.

Lemma heldBy_cell p x y t :
  cell grid x y = Some t →
  heldBy grid p (x, y)
  = match unit t with
    | Some u => bool_decide (player u = p)
    | None => false
    end.
Proof. intros Ht. unfold heldBy. cbn [fst snd]. by rewrite Ht. Qed.

Lemma countRow y xs : ∀ acc : Z * Z,
  0 ≤ y < size → Forall (λ x, 0 ≤ x < size) xs →
  foldlM (λ unitsLeft x,
            t ← tileAt grid x y;
            match unit t with
            | Some u =>
              match player u with
              | Red => Ok (unitsLeft.1 + 1, unitsLeft.2)
              | Blue => Ok (unitsLeft.1, unitsLeft.2 + 1)
              end
            | None => Ok unitsLeft
            end) xs acc
  = Ok (acc.1 + tally Red ((λ x, (x, y)) <$> xs),
        acc.2 + tally Blue ((λ x, (x, y)) <$> xs)).
Proof.
  intros acc Hy Hxs. revert acc.
  induction Hxs as [|x xs Hx Hxs IH]; intros [r b];
    cbn [foldlM fmap list_fmap].
  - cbn. f_equal. f_equal; lia.
  - destruct (tileAt_inside x y Hx Hy) as (t & Ht & ->).
    cbn [mbind result_bind]. rewrite !tally_cons.
    rewrite !(heldBy_cell _ _ _ _ Ht).
    destruct (unit t) as [u|]; [destruct (player u)|];
      cbn [mbind result_bind]; rewrite (IH (_, _)); cbn [fst snd];
      f_equal; f_equal; repeat case_bool_decide; try done; lia.
Qed.

Lemma countUnits_liveUnits :
  countUnits size grid
  = Ok (Z.of_nat (liveUnits size grid Red),
        Z.of_nat (liveUnits size grid Blue)).
Proof.
  unfold countUnits, liveUnits, squares.
  assert (∀ ys (acc : Z * Z),
    Forall (λ y, 0 ≤ y < size) ys →
    foldlM (λ unitsLeft y,
      foldlM (λ unitsLeft x,
            t ← tileAt grid x y;
            match unit t with
            | Some u =>
              match player u with
              | Red => Ok (unitsLeft.1 + 1, unitsLeft.2)
              | Blue => Ok (unitsLeft.1, unitsLeft.2 + 1)
              end
            | None => Ok unitsLeft
            end) (range 0 (size - 1)) unitsLeft) ys acc
    = Ok (acc.1 + tally Red
                    (flat_map (λ y, (λ x, (x, y)) <$> range 0 (size - 1)) ys),
          acc.2 + tally Blue
                    (flat_map (λ y, (λ x, (x, y)) <$> range 0 (size - 1)) ys)))
    as Hrows.
  { intros ys acc Hys. revert acc.
    induction Hys as [|y ys Hy Hys IH]; intros [r b];
      cbn [foldlM flat_map].
    - cbn. f_equal. f_equal; lia.
    - rewrite countRow; [|done|].
      + cbn [mbind result_bind]. rewrite IH. cbn [fst snd].
        rewrite !filter_app, !length_app. f_equal. f_equal; lia.
      + apply Forall_forall. intros x Hx%elem_of_range. lia. }
  rewrite Hrows.
  - cbn [fst snd]. f_equal.
  - apply Forall_forall. intros y Hy%elem_of_range. lia.
Qed.

(** *** The range loops *)

Lemma outside_false nx ny :
  outside size nx ny = false ↔ 0 ≤ nx < size ∧ 0 ≤ ny < size.
Proof.
  unfold outside. rewrite !orb_false_iff, !Z.ltb_ge, !Z.leb_gt. lia.
Qed.

Abbreviation admitted skip x y r nx ny :=
  (∃ t, cell grid nx ny = Some t ∧ skip t = false
        ∧ Z.abs (nx - x) + Z.abs (ny - y) ≤ r).

Lemma probe_spec (skip : Tile → bool) x y r dx valid dy :
  ∃ valid',
    probe size grid skip x y r dx valid dy = Ok valid'
    ∧ ∀ c, c ∈ valid'
           ↔ c ∈ valid
             ∨ (c = (x + dx, y + dy) ∧ admitted skip x y r c.1 c.2).
Proof.
  unfold probe. cbn zeta.
  destruct (outside size (x + dx) (y + dy)) eqn:Hout.
  { exists valid. split; [done|]. intros c.
    split; [tauto|]. intros [?|[-> (t & Ht & _)]]; [done|].
    cbn [fst snd] in Ht. apply (cell_bounds _ _ _ _ _ _ Hgrid) in Ht.
    apply outside_false in Ht. congruence. }
  apply outside_false in Hout as [Hx Hy].
  destruct (tileAt_inside _ _ Hx Hy) as (t & Ht & ->).
  cbn [mbind result_bind].
  destruct (skip t) eqn:Hskip.
  { exists valid. split; [done|]. intros c.
    split; [tauto|]. intros [?|[-> (t' & Ht' & Hs & _)]]; [done|].
    cbn [fst snd] in Ht'. congruence. }
  destruct (Z.leb_spec (Z.abs dx + Z.abs dy) r) as [Hd|Hd].
  - eexists. split; [done|]. intros c.
    rewrite elem_of_app, list_elem_of_singleton.
    split; [|tauto]. intros [?| ->]; [tauto|].
    right. split; [done|]. exists t. cbn [fst snd].
    split; [done|]. split; [done|]. lia.
  - exists valid. split; [done|]. intros c.
    split; [tauto|]. intros [?|[-> (_ & _ & _ & Hle)]]; [done|].
    cbn [fst snd] in Hle. lia.
Qed.

Lemma scanColumn (skip : Tile → bool) x y r dx dys : ∀ valid,
  ∃ valid',
    foldlM (probe size grid skip x y r dx) dys valid = Ok valid'
    ∧ ∀ c, c ∈ valid'
           ↔ c ∈ valid
             ∨ (∃ dy, dy ∈ dys ∧ c = (x + dx, y + dy)
                      ∧ admitted skip x y r c.1 c.2).
Proof.
  induction dys as [|dy dys IH]; intros valid; cbn [foldlM].
  - exists valid. split; [done|]. intros c. split; [tauto|].
    intros [?|(? & []%elem_of_nil & _)]. done.
  - destruct (probe_spec skip x y r dx valid dy) as (valid1 & -> & Hin1).
    cbn [mbind result_bind].
    destruct (IH valid1) as (valid' & -> & Hin). exists valid'.
    split; [done|]. intros c. rewrite Hin, Hin1.
    setoid_rewrite elem_of_cons. naive_solver.
Qed.

Lemma scanDiamond_spec (skip : Tile → bool) x y r :
  ∃ valid,
    scanDiamond size grid skip x y r = Ok valid
    ∧ ∀ nx ny, (nx, ny) ∈ valid ↔ admitted skip x y r nx ny.
Proof.
  unfold scanDiamond.
  assert (∀ dxs valid, ∃ valid',
    foldlM (λ valid dx,
              foldlM (probe size grid skip x y r dx) (range (- r) r) valid)
      dxs valid = Ok valid'
    ∧ ∀ c, c ∈ valid'
           ↔ c ∈ valid
             ∨ (∃ dx dy, dx ∈ dxs ∧ dy ∈ range (- r) r
                         ∧ c = (x + dx, y + dy)
                         ∧ admitted skip x y r c.1 c.2)) as Hcolumns.
  { induction dxs as [|dx dxs IH]; intros valid; cbn [foldlM].
    - exists valid. split; [done|]. intros c. split; [tauto|].
      intros [?|(? & ? & []%elem_of_nil & _)]. done.
    - destruct (scanColumn skip x y r dx (range (- r) r) valid)
        as (valid1 & -> & Hin1). cbn [mbind result_bind].
      destruct (IH valid1) as (valid' & -> & Hin). exists valid'.
      split; [done|]. intros c. rewrite Hin, Hin1.
      setoid_rewrite elem_of_cons. naive_solver. }
  destruct (Hcolumns (range (- r) r) []) as (valid & -> & Hin).
  exists valid. split; [done|]. intros nx ny. rewrite Hin. split.
  - intros [Hnil%elem_of_nil|(dx & dy & _ & _ & _ & H)]; done.
  - intros (t & Ht & Hskip & Hd). right.
    exists (nx - x), (ny - y). rewrite !elem_of_range.
    split; [lia|]. split; [lia|]. split; [f_equal; lia|]. by exists t.
Qed.

End Board.

Section Attack.
Variable size : Z.
Variable s : State.
Hypothesis Hgrid : shaped size size (grid s).

(** What [attackUnit] leaves behind. *)
Lemma attackUnit_resolved attacker x y target defender ground :
  cell (grid s) x y = Some target → unit target = Some defender →
  cell (grid s) (position attacker).1 (position attacker).2 = Some ground →
  let damage := calculateDamage attacker defender (terrain target) in
  let remaining := (health defender - damage)%Q in
  let survivor :=
    if Qle_bool remaining 0 then None else Some (withHealth remaining defender) in
  ∃ s', attackUnit size s attacker x y = Ok s'
    ∧ shaped size size (grid s')
    ∧ (∀ x' y', cell (grid s') x' y' =
         if decide (x' = x ∧ y' = y)
         then Some (mkTile (tilePosition target) (terrain target) survivor)
         else if decide (x' = (position attacker).1
                         ∧ y' = (position attacker).2)
         then Some (mkTile (tilePosition ground) (terrain ground)
                      (Some (withHasAttacked true attacker)))
         else cell (grid s) x' y')
    ∧ selectedUnit s' = None
    ∧ attackRange s' = []
    ∧ movementRange s' = movementRange s
    ∧ currentPlayer s' = currentPlayer s
    ∧ gameStatus s' =
        if decide (liveUnits size (grid s') Red = 0%nat) then Wins Blue
        else if decide (liveUnits size (grid s') Blue = 0%nat) then Wins Red
        else if Qle_bool remaining 0 then Destroyed (type defender)
        else TookDamage (type defender) damage.
Proof.
  intros Htarget Hdefender Hground damage remaining survivor.
  unfold attackUnit. rewrite (tileAt_cell _ _ Hgrid _ _ _ Htarget).
  cbn [mbind result_bind]. rewrite Hdefender. cbn [defined mbind result_bind].
  destruct (position attacker) as [ax ay] eqn:Hpos. cbn [fst snd] in *.
  destruct (setUnit_cell _ _ Hgrid ax ay ground
              (Some (withHasAttacked true attacker)) Hground)
    as (grid1 & -> & Hgrid1 & Hcell1). cbn [mbind result_bind].
  assert (∃ t1, cell grid1 x y = Some t1
                ∧ tilePosition t1 = tilePosition target
                ∧ terrain t1 = terrain target) as (t1 & Ht1 & Hp1 & Hter1).
  { rewrite Hcell1. case_decide as Hsame.
    - destruct Hsame as [-> ->]. eexists. split; [done|].
      rewrite Htarget in Hground. by injection Hground as <-.
    - by exists target. }
  fold damage. fold remaining.
  destruct (setUnit_cell _ _ Hgrid1 x y t1 survivor Ht1)
    as (grid2 & Hset & Hgrid2 & Hcell2).
  unfold survivor in Hset. cbn [health withHealth].
  rewrite Hset. cbn [mbind result_bind].
  rewrite (countUnits_liveUnits _ _ Hgrid2). cbn [mbind result_bind fst snd].
  assert (∀ n : nat, (Z.of_nat n =? 0) = bool_decide (n = 0%nat)) as Hzero.
  { intros n. apply eq_iff_eq_true.
    rewrite Z.eqb_eq, bool_decide_eq_true. lia. }
  rewrite !Hzero.
  assert (∀ x' y', cell grid2 x' y' =
         if decide (x' = x ∧ y' = y)
         then Some (mkTile (tilePosition target) (terrain target) survivor)
         else if decide (x' = ax ∧ y' = ay)
         then Some (mkTile (tilePosition ground) (terrain ground)
                      (Some (withHasAttacked true attacker)))
         else cell (grid s) x' y') as Hcells.
  { intros x' y'. rewrite Hcell2, Hcell1, Hp1, Hter1. done. }
  destruct (decide (liveUnits size grid2 Red = 0%nat)) as [Hr|Hr];
    [|destruct (decide (liveUnits size grid2 Blue = 0%nat)) as [Hb|Hb]];
    rewrite ?(bool_decide_eq_true_2 _ Hr), ?(bool_decide_eq_false_2 _ Hr),
      ?(bool_decide_eq_true_2 _ Hb), ?(bool_decide_eq_false_2 _ Hb);
    (eexists; split; [reflexivity|]); cbn;
    rewrite ?(decide_True _ _ Hr), ?(decide_False _ _ Hr),
      ?(decide_True _ _ Hb), ?(decide_False _ _ Hb);
    done.
Qed.

End Attack.

End BoardFacts.

(** ** The time-driven board *)

Module TimeDrivenFacts.
Import TimeDriven.

Section Engine.
Variable STATS : UnitName → UnitStats.
Variable sz : Size.
Variable grid : list (list Tile).
Hypothesis Hgrid : shaped (width sz) (height sz) grid.

Lemma tileAt_of_cell x y t : cell grid x y = Some t → tileAt grid x y = Ok t.
Proof.
  intros Ht. destruct (cell_bounds _ _ _ _ _ _ Hgrid Ht) as [_ Hy].
  unfold tileAt. by rewrite (index2_shaped _ _ _ _ _ Hgrid), Ht.
Qed.

Lemma tileAt_on_board x y :
  0 ≤ x < width sz → 0 ≤ y < height sz →
  ∃ t, cell grid x y = Some t ∧ tileAt grid x y = Ok t.
Proof.
  intros Hx Hy. destruct (cell_inside _ _ _ _ _ Hgrid Hx Hy) as [t Ht].
  exists t. split; [done|]. by apply tileAt_of_cell.
Qed.

(** *** Targeting *)

Abbreviation targeted stats u x y tx ty :=
  (∃ t, cell grid tx ty = Some t ∧ isTarget stats u x y tx ty t = true).

Lemma scanCells_marks stats u x y ty xs : ∀ attacks,
  0 ≤ ty < height sz → Forall (λ tx, 0 ≤ tx < width sz) xs →
  shaped (width sz) (height sz) attacks →
  ∃ attacks',
    foldlM (λ attacks tx,
              t ← tileAt grid tx ty;
              if isTarget stats u x y tx ty t
              then assign2 attacks tx ty true
              else Ok attacks) xs attacks = Ok attacks'
    ∧ shaped (width sz) (height sz) attacks'
    ∧ ∀ x' y', cell attacks' x' y' = Some true
               ↔ cell attacks x' y' = Some true
                 ∨ (y' = ty ∧ x' ∈ xs ∧ targeted stats u x y x' y').
Proof.
  intros attacks Hty Hxs. revert attacks.
  induction Hxs as [|tx xs Htx Hxs IH]; intros attacks Ha; cbn [foldlM].
  - exists attacks. split; [done|]. split; [done|].
    intros x' y'. split; [tauto|]. intros [?|(_ & []%elem_of_nil & _)]. done.
  - destruct (tileAt_on_board tx ty Htx Hty) as (t & Ht & ->).
    cbn [mbind result_bind].
    destruct (isTarget stats u x y tx ty t) eqn:Htarget.
    + destruct (assign2_shaped _ _ attacks tx ty true Ha Htx Hty)
        as (attacks1 & -> & Ha1 & Hcell1). cbn [mbind result_bind].
      destruct (IH attacks1 Ha1) as (attacks' & -> & Ha' & Hcell').
      exists attacks'. split; [done|]. split; [done|].
      intros x' y'. rewrite Hcell', Hcell1, elem_of_cons.
      case_decide as Hxy.
      * destruct Hxy as [-> ->]. split; [|intros _; by left]. intros _.
        right. split; [done|]. split; [by left|]. by exists t.
      * split; [intros [?|?]; [by left|]|]; naive_solver.
    + cbn [mbind result_bind].
      destruct (IH attacks Ha) as (attacks' & -> & Ha' & Hcell').
      exists attacks'. split; [done|]. split; [done|].
      intros x' y'. rewrite Hcell', elem_of_cons.
      split; [naive_solver|].
      intros [?|(-> & [->|?] & t' & Ht' & Htarget')]; [by left| |].
      * rewrite Ht in Ht'. injection Ht' as <-. congruence.
      * right. split; [done|]. split; [done|]. by exists t'.
Qed.

Lemma scanRow_marks stats u x y ty attacks :
  0 ≤ ty < height sz → shaped (width sz) (height sz) attacks →
  ∃ attacks',
    scanRow sz grid stats u x y attacks ty = Ok attacks'
    ∧ shaped (width sz) (height sz) attacks'
    ∧ ∀ x' y', cell attacks' x' y' = Some true
               ↔ cell attacks x' y' = Some true
                 ∨ (y' = ty ∧ 0 ≤ x' < width sz
                    ∧ targeted stats u x y x' y').
Proof.
  intros Hty Ha.
  destruct (scanCells_marks stats u x y ty (range 0 (width sz - 1)) attacks)
    as (attacks' & Hscan & Ha' & Hcell'); [done| |done|].
  { apply Forall_forall. intros tx Htx%elem_of_range. lia. }
  exists attacks'. split; [done|]. split; [done|].
  intros x' y'. rewrite Hcell', elem_of_range.
  split; (intros [?|(? & ? & ?)]; [by left|right]); (split; [done|]);
    (split; [lia|done]).
Qed.

Lemma scanRows_marks stats u x y ys : ∀ attacks,
  Forall (λ ty, 0 ≤ ty < height sz) ys →
  shaped (width sz) (height sz) attacks →
  ∃ attacks',
    foldlM (scanRow sz grid stats u x y) ys attacks = Ok attacks'
    ∧ shaped (width sz) (height sz) attacks'
    ∧ ∀ x' y', cell attacks' x' y' = Some true
               ↔ cell attacks x' y' = Some true
                 ∨ (y' ∈ ys ∧ 0 ≤ x' < width sz
                    ∧ targeted stats u x y x' y').
Proof.
  intros attacks Hys. revert attacks.
  induction Hys as [|ty ys Hty Hys IH]; intros attacks Ha; cbn [foldlM].
  - exists attacks. split; [done|]. split; [done|].
    intros x' y'. split; [tauto|]. intros [?|([]%elem_of_nil & _)]. done.
  - destruct (scanRow_marks stats u x y ty attacks Hty Ha)
      as (attacks1 & -> & Ha1 & Hcell1).
    cbn [mbind result_bind].
    destruct (IH attacks1 Ha1) as (attacks' & -> & Ha' & Hcell').
    exists attacks'. split; [done|]. split; [done|].
    intros x' y'. rewrite Hcell', Hcell1, elem_of_cons.
    split.
    + intros [[?|(-> & ? & ?)]|(? & ? & ?)]; [by left|right..].
      * split; [by left|]. done.
      * split; [by right|]. done.
    + intros [?|([->|?] & ? & ?)]; [by left; left| |].
      * left. right. done.
      * right. done.
Qed.

Lemma calculateValidAttacks_marks x y t u n :
  cell grid x y = Some t → unit t = Some u → type u = Some n →
  ∃ attacks,
    calculateValidAttacks STATS sz grid x y = Ok attacks
    ∧ shaped (width sz) (height sz) attacks
    ∧ ∀ tx ty, cell attacks tx ty = Some true
               ↔ targeted (STATS n) u x y tx ty.
Proof.
  intros Ht Hu Hn. unfold calculateValidAttacks.
  rewrite (tileAt_of_cell _ _ _ Ht). cbn [mbind result_bind]. rewrite Hu.
  unfold statsOf. rewrite Hn. cbn [defined mbind result_bind].
  destruct (scanRows_marks (STATS n) u x y (range 0 (height sz - 1))
              (blank sz)) as (attacks & -> & Ha & Hcell).
  { apply Forall_forall. intros ty Hty%elem_of_range. lia. }
  { apply filled_shaped. }
  exists attacks. split; [done|]. split; [done|].
  intros tx ty. rewrite Hcell, elem_of_range. split.
  - intros [Hb%filled_cell|(_ & _ & ?)]; done.
  - intros (t' & Ht' & Htarget). right.
    destruct (cell_bounds _ _ _ _ _ _ Hgrid Ht').
    split; [lia|]. split; [done|]. by exists t'.
Qed.

End Engine.

End TimeDrivenFacts.

(** ** Damage, model A: [calculateDamage] *)

Module DamageFacts.
Import TurnDriven Census BoardFacts.

Lemma Qmax_floor (d : Q) : Qmax 10 (Qmax 0 d) = Qmax 10 d.
Proof.
  unfold Qmax, GenericMinMax.gmax.
  destruct (Qcompare_spec 0 d); destruct (Qcompare_spec 10 d);
    try reflexivity; exfalso; lra.
Qed.

Lemma calculateDamage_le a d t : (calculateDamage a d t <= health d)%Q.
Proof. unfold calculateDamage. apply Q.le_min_l. Qed.

(** C2.  Model A: for every attacker, defender and defender terrain the
    damage is [attack - (defense + defense * defenseBonus / 100)] clamped
    below at 10 and above at the defender's current health.  With attack
    55, defense 10, a 20% bonus and health 100 the damage is 43 and the
    health left is 57. *)
Theorem calculateDamage_flat_mitigation attacker defender terrain :
  calculateDamage attacker defender terrain
  = Qmin (health defender)
      (Qmax 10
         (attack attacker
          - (defense defender
             + defense defender * (defenseBonus terrain / 100))))%Q
  ∧ ((attack attacker == 55)%Q → (defense defender == 10)%Q →
     (defenseBonus terrain == 20)%Q → (health defender == 100)%Q →
     (calculateDamage attacker defender terrain == 43)%Q
     ∧ (health defender - calculateDamage attacker defender terrain
        == 57)%Q).
Proof.
  split.
  - unfold calculateDamage. by rewrite Qmax_floor.
  - intros Ha Hd Ht Hh.
    assert (calculateDamage attacker defender terrain == 43)%Q as Hdamage.
    { unfold calculateDamage. rewrite Ha, Hd, Ht, Hh. reflexivity. }
    split; [exact Hdamage|]. rewrite Hdamage, Hh. reflexivity.
Qed.

(** Red's infantry attacks Blue's infantry in a city: 43 damage, and
    [attackUnit] leaves the defender with 57 of its 100 health. *)
Lemma calculateDamage_flat_mitigation_witness :
  let attacker := Samples.Turn.redInfantry in
  let defender := Samples.Turn.blueInfantry in
  let terrain := TERRAIN_TYPES City in
  ((attack attacker == 55)%Q
   ∧ (defense defender == 10)%Q
   ∧ (defenseBonus terrain == 20)%Q
   ∧ (health defender == 100)%Q)
  ∧ ((calculateDamage attacker defender terrain == 43)%Q
     ∧ (health defender
        - calculateDamage attacker defender terrain == 57)%Q)
  ∧ ∃ s' t d,
      handleTileClick GRID_SIZE Samples.Turn.duel 1 1
      = Ok s'
      ∧ cell (grid s') 1 1 = Some t
      ∧ unit t = Some d
      ∧ (health d == 57)%Q.
Proof.
  intros attacker defender terrain.
  assert ((attack attacker == 55)%Q
          ∧ (defense defender == 10)%Q
          ∧ (defenseBonus terrain == 20)%Q
          ∧ (health defender == 100)%Q) as Hinput
    by (repeat split; reflexivity).
  split; [exact Hinput|]. split.
  - destruct Hinput as (Ha & Hd & Ht & Hh).
    exact (proj2 (calculateDamage_flat_mitigation
                    attacker defender terrain) Ha Hd Ht Hh).
  - eexists _, _, _. split; [vm_compute; reflexivity|].
    split; [vm_compute; reflexivity|]. split; reflexivity.
Defined.

End DamageFacts.

(** ** Moves and attacks of the time-driven engine *)

Module TimeDrivenMoves.
Import TimeDriven TimeDrivenFacts.

Section Engine.
Variable STATS : UnitName → UnitStats.
Variable sz : Size.
Variable grid : list (list Tile).
Hypothesis Hgrid : shaped (width sz) (height sz) grid.

(** What [performAttack] leaves behind: only the defender's tile
    changes. *)
Lemma performAttack_resolved fx fy tx ty from to attacker defender na nd
    damage :
  cell grid fx fy = Some from → unit from = Some attacker →
  type attacker = Some na →
  cell grid tx ty = Some to → unit to = Some defender →
  type defender = Some nd →
  attackDamage (STATS na) (STATS nd) attacker defender
    (TERRAIN_DEFENSE (terrain to)) = Ok damage →
  let hp' := Z.max 0 (hp defender - damage) in
  ∃ grid',
    performAttack STATS grid fx fy tx ty = Ok grid'
    ∧ shaped (width sz) (height sz) grid'
    ∧ ∀ x y, cell grid' x y =
             if decide (x = tx ∧ y = ty)
             then Some (mkTile (terrain to)
                          (if hp' <=? 0 then None
                           else Some (mkUnit (type defender)
                                        (player defender) hp'))
                          (owner to))
             else cell grid x y.
Proof.
  intros Hfrom Ha Hna Hto Hd Hnd Hdamage hp'.
  destruct (cell_bounds _ _ _ _ _ _ Hgrid Hto) as [Hx Hy].
  unfold performAttack.
  rewrite (tileAt_of_cell sz grid Hgrid _ _ _ Hfrom),
    (tileAt_of_cell sz grid Hgrid _ _ _ Hto).
  cbn [mbind result_bind]. rewrite Ha, Hd. cbn [defined mbind result_bind].
  unfold statsOf. rewrite Hna, Hnd. cbn [defined mbind result_bind].
  rewrite Hdamage. cbn [mbind result_bind].
  apply (assign2_shaped _ _ _ _ _ _ Hgrid Hx Hy).
Qed.

(** What [moveUnit] leaves behind. *)
Lemma moveUnit_moved fx fy tx ty from u to :
  cell grid fx fy = Some from → unit from = Some u →
  cell grid tx ty = Some to → (fx, fy) ≠ (tx, ty) →
  ∃ grid',
    moveUnit grid fx fy tx ty = Ok grid'
    ∧ shaped (width sz) (height sz) grid'
    ∧ ∀ x y, cell grid' x y =
             if decide (x = tx ∧ y = ty)
             then Some (mkTile (terrain to) (Some u)
                          (if decide (terrain to = city)
                           then Some (player u) else owner to))
             else if decide (x = fx ∧ y = fy)
             then Some (mkTile (terrain from) None (owner from))
             else cell grid x y.
Proof.
  intros Hfrom Hu Hto Hne.
  destruct (cell_bounds _ _ _ _ _ _ Hgrid Hto) as [Htx Hty].
  destruct (cell_bounds _ _ _ _ _ _ Hgrid Hfrom) as [Hfx Hfy].
  unfold moveUnit.
  rewrite (tileAt_of_cell sz grid Hgrid _ _ _ Hfrom).
  cbn [mbind result_bind]. rewrite Hu.
  rewrite (tileAt_of_cell sz grid Hgrid _ _ _ Hto). cbn [mbind result_bind].
  destruct (assign2_shaped _ _ grid tx ty
              (mkTile (terrain to) (Some u) (owner to)) Hgrid Htx Hty)
    as (grid1 & -> & Hgrid1 & Hcell1). cbn [mbind result_bind].
  assert (cell grid1 fx fy = Some from) as Hfrom1.
  { rewrite Hcell1, decide_False; [done|]. intros [-> ->]. done. }
  rewrite (tileAt_of_cell sz grid1 Hgrid1 _ _ _ Hfrom1). cbn [mbind result_bind].
  destruct (assign2_shaped _ _ grid1 fx fy
              (mkTile (terrain from) None (owner from)) Hgrid1 Hfx Hfy)
    as (grid2 & -> & Hgrid2 & Hcell2). cbn [mbind result_bind].
  assert (cell grid2 tx ty
          = Some (mkTile (terrain to) (Some u) (owner to))) as Hto2.
  { rewrite Hcell2, decide_False, Hcell1, decide_True; [done..|].
    intros [-> ->]. done. }
  rewrite (tileAt_of_cell sz grid2 Hgrid2 _ _ _ Hto2).
  cbn [mbind result_bind terrain owner unit].
  assert (∀ x y, cell grid2 x y =
             if decide (x = tx ∧ y = ty)
             then Some (mkTile (terrain to) (Some u) (owner to))
             else if decide (x = fx ∧ y = fy)
             then Some (mkTile (terrain from) None (owner from))
             else cell grid x y) as Hcells.
  { intros x y. rewrite Hcell2, Hcell1.
    repeat case_decide; try done. destruct_and!. by subst. }
  case_bool_decide as Hcity; cbn [andb].
  - case_bool_decide as Hown; cbn [negb].
    + exists grid2. split; [done|]. split; [done|].
      intros x y. rewrite Hcells.
      rewrite (decide_True (P := terrain to = city)) by done.
      by rewrite Hown.
    + destruct (assign2_shaped _ _ grid2 tx ty
                  (mkTile (terrain to) (Some u) (Some (player u)))
                  Hgrid2 Htx Hty) as (grid3 & -> & Hgrid3 & Hcell3).
      exists grid3. split; [done|]. split; [done|].
      intros x y. rewrite Hcell3, Hcells.
      rewrite (decide_True (P := terrain to = city)) by done.
      repeat case_decide; done.
  - exists grid2. split; [done|]. split; [done|].
    intros x y. rewrite Hcells.
    by rewrite (decide_False (P := terrain to = city)) by done.
Qed.

(** C10.  A unit that moves onto a city takes it: whatever the unit's
    type and whoever owned the city, the tile belongs to the unit's player
    once [moveUnit] returns.  There is no capture progress and no capture
    action in this engine; a tile that is not a city keeps its owner. *)
Theorem moveUnit_takes_city fx fy tx ty from u to :
  cell grid fx fy = Some from → unit from = Some u →
  cell grid tx ty = Some to → (fx, fy) ≠ (tx, ty) →
  ∃ grid' to',
    moveUnit grid fx fy tx ty = Ok grid'
    ∧ cell grid' tx ty = Some to'
    ∧ unit to' = Some u
    ∧ terrain to' = terrain to
    ∧ (terrain to = city → owner to' = Some (player u))
    ∧ (terrain to ≠ city → owner to' = owner to).
Proof.
  intros Hfrom Hu Hto Hne.
  destruct (moveUnit_moved fx fy tx ty from u to Hfrom Hu Hto Hne)
    as (grid' & Hmove & _ & Hcell).
  exists grid'. eexists. split; [done|].
  split; [by rewrite Hcell, decide_True|].
  cbn [unit terrain owner]. repeat split; intros; by case_decide.
Qed.

End Engine.

(** The damage is defined whenever the statistics and hit points it is
    computed from are below [2 ^ 31] in absolute value: no operation of
    the formula overflows, and the only divisors are 100 and 2. *)
Lemma attackDamage_returns attackerStats defenderStats attacker defender
    terrainDefense :
  Z.abs (attack attackerStats) < 2 ^ 31 → Z.abs (hp attacker) < 2 ^ 31 →
  Z.abs (defense defenderStats) < 2 ^ 31 → Z.abs (hp defender) < 2 ^ 31 →
  Z.abs terrainDefense < 2 ^ 31 →
  ∃ damage,
    attackDamage attackerStats defenderStats attacker defender
      terrainDefense = Ok damage
    ∧ 1 ≤ damage.
Proof.
  intros Ha Hha Hd Hhd Ht. unfold attackDamage.
  assert (∀ n, Z.abs n < 2 ^ 31 → Magnitude.steady (Double.ofZ n) 32)
    as Hnum.
  { intros n Hn. apply (DoubleFacts.ofZ_steady n 31); [done|lia]. }
  assert (∀ n, Z.abs n < 2 ^ 31 →
            Magnitude.steady
              (Double.div (Double.ofZ n) (Double.ofZ 100)) 79) as Hshare.
  { intros n Hn. apply (DoubleFacts.div_100_steady _ 32); [auto|lia]. }
  set (inflicted := Double.mul (Double.ofZ (attack attackerStats)) _).
  set (held := Double.mul (Double.ofZ (defense defenderStats)) _).
  set (cover := Double.add (Double.ofZ 1) _).
  assert (Magnitude.steady inflicted 112) as Hinflicted.
  { apply (DoubleFacts.mul_steady _ _ 32 79); [auto|auto|lia..]. }
  assert (Magnitude.steady held 112) as Hheld.
  { apply (DoubleFacts.mul_steady _ _ 32 79); [auto|auto|lia..]. }
  assert (Magnitude.steady cover 81) as Hcover.
  { apply (DoubleFacts.add_steady _ _ 79); [|auto|lia].
    apply (DoubleFacts.steady_mono _ 32); [|lia]. apply Hnum. lia. }
  assert (Magnitude.steady (Double.div (Double.mul held cover) (Double.ofZ 2))
            246) as Habsorbed.
  { apply (DoubleFacts.div_2_steady _ 194); [|lia].
    apply (DoubleFacts.mul_steady _ _ 112 81); [done|done|lia..]. }
  destruct (DoubleFacts.floor_steady
              (Double.sub inflicted
                 (Double.div (Double.mul held cover) (Double.ofZ 2))) 248)
    as [n ->].
  { apply (DoubleFacts.sub_steady _ _ 246); [|done|lia].
    by apply (DoubleFacts.steady_mono _ 112); [|lia]. }
  exists (Z.max 1 n). split; [done|lia].
Qed.

(** Player 1's infantry moves from its base onto the neutral city at
    [(4, 4)] of the opening board. *)
Lemma moveUnit_takes_city_witness :
  let u := mkUnit (Some infantry) P1 100 in
  (shaped 12 10 Samples.Time.ridge
   ∧ cell Samples.Time.ridge 2 2 = Some (mkTile base (Some u) (Some P1))
   ∧ cell Samples.Time.ridge 4 4 = Some (mkTile city None None))
  ∧ ∃ grid' to',
      moveUnit Samples.Time.ridge 2 2 4 4 = Ok grid'
      ∧ cell grid' 4 4 = Some to'
      ∧ unit to' = Some u
      ∧ terrain to' = city
      ∧ (city = city → owner to' = Some P1)
      ∧ (city ≠ city → owner to' = None).
Proof.
  intros u.
  assert (shaped 12 10 Samples.Time.ridge) as Hgrid
    by (split; [reflexivity | repeat constructor]).
  split; [split; [exact Hgrid | split; reflexivity]|].
  apply (moveUnit_takes_city gridSize Samples.Time.ridge Hgrid 2 2 4 4
           (mkTile base (Some u) (Some P1)) u (mkTile city None None));
    [reflexivity | reflexivity | reflexivity | discriminate].
Defined.

(** The same through the clicks of a player: select the infantry, move
    it to [(3, 3)], select it again, move it onto the city. *)
Example city_taken_by_entering :
  ∃ s t,
    run UNIT_STATS gridSize Samples.Time.ridgeStart
      [CellClick 2 2; CellClick 3 3; CellClick 3 3; CellClick 4 4] = Ok s
    ∧ cell (grid s) 4 4 = Some t
    ∧ owner t = Some P1
    ∧ unit t = Some (mkUnit (Some infantry) P1 100).
Proof.
  eexists _, _. split; [vm_compute; reflexivity|].
  split; [vm_compute; reflexivity|]. by split.
Qed.

End TimeDrivenMoves.

(** ** Targeting: [calculateValidAttacks] and [calculateAttackRange] *)

Module TargetingFacts.
Import TimeDriven TimeDrivenFacts.
Module TB := TurnDriven.Board.

Lemma isTarget_spec stats u x y tx ty t :
  isTarget stats u x y tx ty t = true
  ↔ minRange stats ≤ Z.abs (tx - x) + Z.abs (ty - y) ≤ maxRange stats
    ∧ ∃ o, unit t = Some o ∧ player o ≠ player u.
Proof.
  unfold isTarget, distance. rewrite !andb_true_iff, !Z.leb_le.
  destruct (unit t) as [o|].
  - rewrite negb_true_iff, bool_decide_eq_false. naive_solver.
  - naive_solver.
Qed.

(** The turn-driven range function: the enemies within [attackRange]. *)
Lemma calculateAttackRange_range size (g : list (list TB.Tile))
    (a : TB.Unit) :
  shaped size size g →
  ∃ l,
    TB.calculateAttackRange size g a = Ok l
    ∧ ∀ nx ny target, cell g nx ny = Some target →
        (nx, ny) ∈ l
        ↔ Z.abs (nx - (TB.position a).1)
          + Z.abs (ny - (TB.position a).2)
          ≤ TB.attackRange a
          ∧ ∃ o, TB.unit target = Some o
                 ∧ TB.player o ≠ TB.player a.
Proof.
  intros Hg. unfold TB.calculateAttackRange.
  destruct (TB.position a) as [x y]. cbn [fst snd].
  destruct (BoardFacts.scanDiamond_spec size g Hg (TB.notEnemy a)
              x y (TB.attackRange a)) as (l & -> & Hl).
  exists l. split; [done|]. intros nx ny target Htarget. rewrite Hl.
  unfold TB.notEnemy. split.
  - intros (t & Ht & Hskip & Hd). simplify_eq. split; [done|].
    destruct (TB.unit target) as [o|]; [|done].
    exists o. split; [done|]. by apply bool_decide_eq_false in Hskip.
  - intros (Hd & o & Ho & Hne). exists target. rewrite Ho.
    split; [done|]. split; [|done]. by apply bool_decide_eq_false.
Qed.

(** C3.  A tile of the board is in a unit's attackable set exactly when
    its Manhattan distance [|tx - x| + |ty - y|] from the unit lies between the unit's minimal
    and maximal attack range, the tile holds a unit, and that unit belongs
    to the other faction; a unit whose maximal range is 0 has an empty
    attackable set.  The turn-driven engine, whose units have a single
    [attackRange], computes the same set with a minimal range of 0. *)
Theorem calculateValidAttacks_range STATS sz grid x y t u n :
  shaped (width sz) (height sz) grid →
  cell grid x y = Some t → unit t = Some u → type u = Some n →
  (∃ attacks,
     calculateValidAttacks STATS sz grid x y = Ok attacks
     ∧ (∀ tx ty target, cell grid tx ty = Some target →
          cell attacks tx ty = Some true
          ↔ minRange (STATS n) ≤ Z.abs (tx - x) + Z.abs (ty - y)
                               ≤ maxRange (STATS n)
            ∧ ∃ o, unit target = Some o ∧ player o ≠ player u)
     ∧ (maxRange (STATS n) = 0 → ∀ tx ty, cell attacks tx ty ≠ Some true))
  ∧ (∀ size (g : list (list TB.Tile)) (a : TB.Unit),
       shaped size size g →
       ∃ l,
         TB.calculateAttackRange size g a = Ok l
         ∧ (∀ nx ny target, cell g nx ny = Some target →
              (nx, ny) ∈ l
              ↔ 0 ≤ Z.abs (nx - (TB.position a).1)
                    + Z.abs (ny - (TB.position a).2)
                  ≤ TB.attackRange a
                ∧ ∃ o, TB.unit target = Some o
                       ∧ TB.player o ≠ TB.player a)
         ∧ (TB.attackRange a = 0 →
            (∀ ground,
               cell g (TB.position a).1 (TB.position a).2
               = Some ground →
               TB.unit ground = Some a) →
            l = [])).
Proof.
  intros Hgrid Ht Hu Hn. split.
  - destruct (calculateValidAttacks_marks STATS sz grid Hgrid x y t u n
                Ht Hu Hn) as (attacks & Hcalc & _ & Hmarks).
    exists attacks. split; [done|]. split.
    + intros tx ty target Htarget. rewrite Hmarks. split.
      * intros (t' & Ht' & Htgt). simplify_eq. by apply isTarget_spec.
      * intros Htgt. exists target. split; [done|]. by apply isTarget_spec.
    + intros Hmax tx ty (t' & Ht' & [Hd (o & Ho & Hne)]%isTarget_spec)%Hmarks.
      assert (tx = x ∧ ty = y) as [-> ->] by lia.
      simplify_eq.
  - intros size g a Hg.
    destruct (calculateAttackRange_range size g a Hg) as (l & Hcalc & Hl).
    exists l. split; [done|]. split.
    + intros nx ny target Htarget. rewrite (Hl nx ny target Htarget).
      split; [intros [? ?]; split; [lia|done] | intros [? ?]; split; [lia|done]].
    + intros Hzero Hself. apply elem_of_nil_inv. intros [nx ny] Hin.
      assert (∃ target, cell g nx ny = Some target) as [target Htarget].
      { unfold TB.calculateAttackRange in Hcalc.
        destruct (TB.position a) as [px py].
        destruct (BoardFacts.scanDiamond_spec size g Hg
                    (TB.notEnemy a) px py (TB.attackRange a))
          as (l' & Hl' & Hspec).
        rewrite Hcalc in Hl'. injection Hl' as <-.
        apply Hspec in Hin as (t' & Ht' & _). by exists t'. }
      destruct (proj1 (Hl nx ny target Htarget) Hin) as (Hd & o & Ho & Hne).
      assert (nx = (TB.position a).1
              ∧ ny = (TB.position a).2) as [Hnx Hny] by lia.
      rewrite Hnx, Hny in Htarget.
      specialize (Hself target Htarget). congruence.
Qed.

(** An artillery (range 2 to 3) at [(2, 2)] with enemies at distance 2, 1
    and 4. *)
Lemma calculateValidAttacks_range_witness :
  let u := mkUnit (Some artillery) P1 100 in
  let t := mkTile base (Some u) (Some P1) in
  (shaped 12 10 Samples.Time.battery
   ∧ cell Samples.Time.battery 2 2 = Some t)
  ∧ ∃ attacks,
      calculateValidAttacks UNIT_STATS gridSize Samples.Time.battery 2 2
      = Ok attacks
      ∧ (∀ tx ty target, cell Samples.Time.battery tx ty = Some target →
           cell attacks tx ty = Some true
           ↔ 2 ≤ Z.abs (tx - 2) + Z.abs (ty - 2) ≤ 3
             ∧ ∃ o, unit target = Some o ∧ player o ≠ P1)
      ∧ (3 = 0 → ∀ tx ty, cell attacks tx ty ≠ Some true).
Proof.
  intros u t.
  assert (shaped 12 10 Samples.Time.battery) as Hgrid
    by (split; [reflexivity | repeat constructor]).
  split; [split; [exact Hgrid | reflexivity]|].
  apply (calculateValidAttacks_range UNIT_STATS gridSize
           Samples.Time.battery 2 2 t u artillery Hgrid);
    reflexivity.
Defined.

(** The masks themselves: the enemy at [(2, 4)] can be targeted, those at
    [(2, 3)] and [(2, 6)] cannot. *)
Example artillery_targets :
  ∃ attacks,
    calculateValidAttacks UNIT_STATS gridSize Samples.Time.battery 2 2
    = Ok attacks
    ∧ cell attacks 2 4 = Some true
    ∧ cell attacks 2 3 = Some false
    ∧ cell attacks 2 6 = Some false.
Proof. eexists. split; [vm_compute; reflexivity|]. by repeat split. Qed.

End TargetingFacts.

(** ** The origin tile of a move *)

Module OriginFacts.
Import TimeDriven TimeDrivenFacts Reachability ReachabilityFacts.
Module TB := TurnDriven.Board.

(** The turn-driven range function: the free tiles within [moveRange]. *)
Lemma calculateMovementRange_free size (g : list (list TB.Tile))
    (a : TB.Unit) :
  shaped size size g →
  ∃ l,
    TB.calculateMovementRange size g a = Ok l
    ∧ ∀ nx ny, (nx, ny) ∈ l
        ↔ ∃ t, cell g nx ny = Some t ∧ TB.unit t = None
               ∧ Z.abs (nx - (TB.position a).1)
                 + Z.abs (ny - (TB.position a).2) ≤ TB.moveRange a.
Proof.
  intros Hg. unfold TB.calculateMovementRange.
  destruct (TB.position a) as [x y]. cbn [fst snd].
  destruct (BoardFacts.scanDiamond_spec size g Hg TB.occupied
              x y (TB.moveRange a)) as (l & -> & Hl).
  exists l. split; [done|]. intros nx ny. rewrite Hl.
  unfold TB.occupied.
  split; intros (t & Ht & Hfree & Hd); exists t; (split; [done|]);
    (split; [|done]); by destruct (TB.unit t).
Qed.

(** A click on a tile that holds a unit never moves a unit there: it
    leaves the board as it is or resolves an attack on that tile. *)
Lemma click_on_unit STATS sz s x y t s' :
  cell (grid s) x y = Some t → unit t ≠ None →
  handleCellClick STATS sz s x y = Ok s' →
  grid s' = grid s
  ∨ ∃ sx sy, selectedCell s = Some (sx, sy)
             ∧ performAttack STATS (grid s) sx sy x y = Ok (grid s').
Proof.
  intros Ht Hunit. unfold handleCellClick.
  destruct (index2 (grid s) x y) as [clicked|] eqn:Hclicked; [|done].
  apply index2_cell in Hclicked. rewrite Ht in Hclicked. subst clicked.
  cbn [mbind result_bind defined].
  destruct (showBuyMenu s); [intros [= <-]; by left|].
  rewrite (bool_decide_eq_false_2 (unit t = None)) by done.
  rewrite !andb_false_r.
  assert (∀ s0 s1, grid s0 = grid s →
            selectClicked STATS sz s0 t x y = Ok s1 → grid s1 = grid s)
    as Hselect.
  { intros s0 s1 Hs0. unfold selectClicked.
    destruct (unit t); [|by intros [= <-]].
    destruct (calculateValidMoves _ _ _ _ _); [|done].
    destruct (calculateValidAttacks _ _ _ _ _); [|done].
    by intros [= <-]. }
  destruct (selectedCell s) as [[sx sy]|] eqn:Hsel.
  - destruct (tileAt (grid s) sx sy) as [selectedTile|]; [|done].
    cbn [mbind result_bind].
    destruct (index2 (validMoves s) x y) as [canMove|]; [|done].
    cbn [mbind result_bind]. rewrite andb_false_r. cbn [andb].
    destruct (index2 (validAttacks s) x y) as [canAttack|]; [|done].
    cbn [mbind result_bind].
    destruct (default false canAttack && ownsUnit s (unit selectedTile)).
    + unfold spendActionPoint.
      destruct (1 <=? get (actionPoints s) (currentPlayer s)).
      * destruct (performAttack STATS (grid s) sx sy x y) as [grid'|]
          eqn:Hattack; [|done].
        intros [= <-]. right. by exists sx, sy.
      * intros [= <-]. by left.
    + intros Hs'. left. by apply (Hselect (clearSelection s) s').
  - intros Hs'. left. by apply (Hselect s s').
Qed.

(** C4, as the engines have it.  In the turn-driven engine the tile a
    unit stands on is never in its movement range, whatever its
    [moveRange].  In the time-driven engine [calculateValidMoves] marks
    every tile that the search takes from its queue, the origin first: the
    origin is always in the mask; it cannot be a destination because a
    click on a tile that holds a unit never moves a unit. *)
Theorem origin_tile :
  (∀ size (g : list (list TB.Tile)) (a : TB.Unit) ground,
     shaped size size g →
     cell g (TB.position a).1 (TB.position a).2 = Some ground →
     TB.unit ground ≠ None →
     ∃ l, TB.calculateMovementRange size g a = Ok l ∧ TB.position a ∉ l)
  ∧ (∀ STATS sz grid x y t u n,
       shaped (width sz) (height sz) grid →
       cell grid x y = Some t → unit t = Some u → type u = Some n →
       ∃ moves,
         calculateValidMoves STATS sz grid x y = Ok moves
         ∧ cell moves x y = Some true)
  ∧ (∀ STATS sz s x y t s',
       cell (grid s) x y = Some t → unit t ≠ None →
       handleCellClick STATS sz s x y = Ok s' →
       grid s' = grid s
       ∨ ∃ sx sy, selectedCell s = Some (sx, sy)
                  ∧ performAttack STATS (grid s) sx sy x y = Ok (grid s')).
Proof.
  split; [|split].
  - intros size g a ground Hg Hground Hunit.
    destruct (calculateMovementRange_free size g a Hg) as (l & Hl & Hfree).
    exists l. split; [done|].
    destruct (TB.position a) as [x y]. cbn [fst snd] in *.
    intros (t & Ht & Hnone & _)%Hfree. congruence.
  - intros STATS sz grid x y t u n Hgrid Ht Hu Hn.
    destruct (calculateValidMoves_search STATS sz grid x y t u n
                Hgrid Ht Hu Hn) as (moves & Hmoves & _ & Hmarks & _).
    exists moves. split; [done|]. apply Hmarks.
    by apply (origin_reached STATS sz grid x y t u n).
  - apply click_on_unit.
Qed.

(** Red's infantry on the board of [Samples.Turn.waiting], and player 1's
    infantry on the opening board of the time-driven engine. *)
Lemma origin_tile_witness :
  let a := TB.createUnit TB.Infantry (1, 0) TB.Red "red-1" in
  let ground := TB.mkTile (1, 0) (TB.TERRAIN_TYPES TB.Plain) (Some a) in
  let g := TurnDriven.grid Samples.Turn.waiting in
  let u := mkUnit (Some infantry) P1 100 in
  let t := mkTile base (Some u) (Some P1) in
  (shaped 10 10 g ∧ cell g 1 0 = Some ground
   ∧ shaped 12 10 Samples.Time.ridge
   ∧ cell Samples.Time.ridge 2 2 = Some t)
  ∧ (∃ l, TB.calculateMovementRange 10 g a = Ok l ∧ (1, 0) ∉ l)
  ∧ (∃ moves,
       calculateValidMoves UNIT_STATS gridSize Samples.Time.ridge 2 2
       = Ok moves
       ∧ cell moves 2 2 = Some true).
Proof.
  intros a ground g u t.
  assert (shaped 10 10 g) as Hg
    by (split; [reflexivity | repeat constructor]).
  assert (shaped 12 10 Samples.Time.ridge) as Hgrid
    by (split; [reflexivity | repeat constructor]).
  split;
    [split; [exact Hg | split; [reflexivity | split;
                                 [exact Hgrid | reflexivity]]]|].
  split.
  - apply (proj1 origin_tile 10 g a ground Hg); [reflexivity|discriminate].
  - apply (proj1 (proj2 origin_tile) UNIT_STATS gridSize Samples.Time.ridge
             2 2 t u infantry Hgrid); reflexivity.
Defined.

(** The claim as the specification states it fails in the time-driven
    engine: on the opening board the mask computed for the infantry at
    [(2, 2)] is [true] at [(2, 2)]. *)
Lemma origin_is_marked :
  ∃ moves,
    calculateValidMoves UNIT_STATS gridSize Samples.Time.ridge 2 2 = Ok moves
    ∧ cell moves 2 2 = Some true.
Proof. eexists. split; [vm_compute; reflexivity|]. reflexivity. Qed.

End OriginFacts.

(** ** Resolved attacks: [attackUnit] and [performAttack] *)

Module AttackFacts.
Import TurnDriven Census BoardFacts.
Module TD := TimeDriven.

(** C6, as the engines have it.  After every resolved attack the
    defender's health is [max(0, health - damage)], a defender left with
    no health is removed from its tile, and the attacker stays where it
    is.  In the turn-driven engine the attacker is marked
    [hasAttacked = true].  The units of the time-driven engine have no
    such flag: [performAttack] changes the defender's tile only; its
    damage is the integer that [attackDamage] computes in double
    arithmetic, at least 1, and it is defined for all statistics and hit
    points below [2 ^ 31] in absolute value. *)
Theorem attack_outcome :
  (∀ size s attacker x y target defender ground,
     shaped size size (grid s) →
     cell (grid s) x y = Some target → unit target = Some defender →
     cell (grid s) (position attacker).1 (position attacker).2
     = Some ground →
     position attacker ≠ (x, y) →
     let damage := calculateDamage attacker defender (terrain target) in
     let remaining := (health defender - damage)%Q in
     ∃ s' target' ground',
       attackUnit size s attacker x y = Ok s'
       ∧ (remaining == Qmax 0 (health defender - damage))%Q
       ∧ cell (grid s') x y = Some target'
       ∧ ((remaining == 0)%Q → unit target' = None)
       ∧ (¬ (remaining == 0)%Q →
          unit target' = Some (withHealth remaining defender))
       ∧ cell (grid s') (position attacker).1 (position attacker).2
         = Some ground'
       ∧ unit ground' = Some (withHasAttacked true attacker)
       ∧ hasAttacked (withHasAttacked true attacker) = true
       ∧ position (withHasAttacked true attacker) = position attacker)
  ∧ (∀ STATS sz grid fx fy tx ty from to attacker defender na nd,
       shaped (TD.width sz) (TD.height sz) grid →
       cell grid fx fy = Some from → TD.unit from = Some attacker →
       TD.type attacker = Some na →
       cell grid tx ty = Some to → TD.unit to = Some defender →
       TD.type defender = Some nd →
       (fx, fy) ≠ (tx, ty) →
       Z.abs (TD.attack (STATS na)) < 2 ^ 31 →
       Z.abs (TD.hp attacker) < 2 ^ 31 →
       Z.abs (TD.defense (STATS nd)) < 2 ^ 31 →
       Z.abs (TD.hp defender) < 2 ^ 31 →
       ∃ damage grid' to',
         TD.attackDamage (STATS na) (STATS nd) attacker defender
           (TD.TERRAIN_DEFENSE (TD.terrain to)) = Ok damage
         ∧ 1 ≤ damage
         ∧ TD.performAttack STATS grid fx fy tx ty = Ok grid'
         ∧ cell grid' tx ty = Some to'
         ∧ (Z.max 0 (TD.hp defender - damage) = 0 → TD.unit to' = None)
         ∧ (Z.max 0 (TD.hp defender - damage) ≠ 0 →
            TD.unit to'
            = Some (TD.mkUnit (TD.type defender) (TD.player defender)
                      (Z.max 0 (TD.hp defender - damage))))
         ∧ cell grid' fx fy = Some from).
Proof.
  split.
  - intros size s attacker x y target defender ground Hgrid Htarget
      Hdefender Hground Hapart damage remaining.
    destruct (attackUnit_resolved size s Hgrid attacker x y target defender
                ground Htarget Hdefender Hground)
      as (s' & Hattack & _ & Hcell & _).
    fold damage in Hcell. fold remaining in Hcell.
    assert (0 <= remaining)%Q as Hpos.
    { unfold remaining, damage.
      pose proof (DamageFacts.calculateDamage_le attacker defender (terrain target)).
      lra. }
    exists s'. eexists _, _. split; [exact Hattack|].
    split; [by rewrite Q.max_r|].
    split; [by rewrite Hcell, decide_True|]. cbn [unit].
    split; [|split].
    + intros Hzero. rewrite (proj2 (Qle_bool_iff remaining 0)); [done|].
      rewrite Hzero. apply Qle_refl.
    + intros Hleft. destruct (Qle_bool remaining 0) eqn:Hle; [|done].
      apply Qle_bool_iff in Hle. exfalso. apply Hleft. lra.
    + assert (¬ ((position attacker).1 = x ∧ (position attacker).2 = y))
        as Hne.
      { intros [Hx Hy]. apply Hapart.
        destruct (position attacker). cbn [fst snd] in *. congruence. }
      split; [by rewrite Hcell, decide_False, decide_True|]. done.
  - intros STATS sz grid fx fy tx ty from to attacker defender na nd
      Hgrid Hfrom Ha Hna Hto Hd Hnd Hapart Hattack Hhpa Hdefense Hhpd.
    destruct (TimeDrivenMoves.attackDamage_returns (STATS na) (STATS nd)
                attacker defender (TD.TERRAIN_DEFENSE (TD.terrain to))
                Hattack Hhpa Hdefense Hhpd)
      as (damage & Hdamage & Hpos);
      [destruct (TD.terrain to); cbn; lia|].
    destruct (TimeDrivenMoves.performAttack_resolved STATS sz grid Hgrid
                fx fy tx ty from to attacker defender na nd damage
                Hfrom Ha Hna Hto Hd Hnd Hdamage)
      as (grid' & Hperform & _ & Hcell).
    exists damage, grid'. eexists. split; [exact Hdamage|].
    split; [exact Hpos|]. split; [exact Hperform|].
    split; [by rewrite Hcell, decide_True|]. cbn [TD.unit].
    split; [|split].
    + intros Hzero. by rewrite Hzero.
    + intros Hleft.
      destruct (Z.leb_spec (Z.max 0 (TD.hp defender - damage)) 0);
        [lia|done].
    + rewrite Hcell, decide_False; [done|]. intros [-> ->]. done.
Qed.

(** Red's infantry attacks Blue's in [Samples.Turn.duel]; in the
    time-driven engine player 1's infantry attacks the infantry next to
    its base. *)
Lemma attack_outcome_witness :
  let s := Samples.Turn.duel in
  let attacker := Samples.Turn.redInfantry in
  let defender := Samples.Turn.blueInfantry in
  let target := mkTile (1, 1) (TERRAIN_TYPES City) (Some defender) in
  let ground := mkTile (1, 0) (TERRAIN_TYPES Plain) (Some attacker) in
  let one := TD.mkUnit (Some TD.infantry) TD.P1 100 in
  let two := TD.mkUnit (Some TD.infantry) TD.P2 100 in
  let from := TD.mkTile TD.base (Some one) (Some TD.P1) in
  let to := TD.mkTile TD.plain (Some two) None in
  (shaped 10 10 (grid s)
   ∧ cell (grid s) 1 1 = Some target
   ∧ cell (grid s) 1 0 = Some ground
   ∧ shaped 12 10 Samples.Time.clash
   ∧ cell Samples.Time.clash 2 2 = Some from
   ∧ cell Samples.Time.clash 2 3 = Some to)
  ∧ (∃ s' target' ground',
       attackUnit 10 s attacker 1 1 = Ok s'
       ∧ cell (grid s') 1 1 = Some target'
       ∧ cell (grid s') 1 0 = Some ground'
       ∧ unit ground' = Some (withHasAttacked true attacker))
  ∧ TD.attackDamage (TD.UNIT_STATS TD.infantry) (TD.UNIT_STATS TD.infantry)
      one two (TD.TERRAIN_DEFENSE TD.plain) = Ok 30
  ∧ (∃ grid' to',
       TD.performAttack TD.UNIT_STATS Samples.Time.clash 2 2 2 3 = Ok grid'
       ∧ cell grid' 2 3 = Some to'
       ∧ TD.unit to' = Some (TD.mkUnit (Some TD.infantry) TD.P2 70)
       ∧ cell grid' 2 2 = Some from).
Proof.
  intros s attacker defender target ground one two from to.
  assert (shaped 10 10 (grid s)) as Hs
    by (split; [reflexivity | repeat constructor]).
  assert (shaped 12 10 Samples.Time.clash) as Hclash
    by (split; [reflexivity | repeat constructor]).
  split;
    [split; [exact Hs | split; [reflexivity | split; [reflexivity | split;
       [exact Hclash | split; reflexivity]]]]|].
  split.
  - destruct (proj1 attack_outcome 10 s attacker 1 1 target defender ground
                Hs eq_refl eq_refl eq_refl)
      as (s' & target' & ground' & Hattack & _ & Htarget & _ & _ & Hground
          & Hunit & _); [discriminate|].
    by exists s', target', ground'.
  - destruct (proj2 attack_outcome TD.UNIT_STATS TD.gridSize
                Samples.Time.clash 2 2 2 3 from to one two
                TD.infantry TD.infantry Hclash eq_refl eq_refl eq_refl
                eq_refl eq_refl eq_refl)
      as (damage & grid' & to' & Hdamage & _ & Hattack & Hto & _ & Hleft
          & Hfrom);
      [discriminate | reflexivity | reflexivity | reflexivity | reflexivity|].
    assert (damage = 30) as -> by (vm_compute in Hdamage; congruence).
    split; [exact Hdamage|].
    exists grid', to'. split; [exact Hattack|]. split; [exact Hto|].
    split; [|exact Hfrom]. by apply Hleft.
Defined.

(** The rounding of the doubles shows in the damage.  An artillery with
    70 hit points hits an infantry with 100 on a plain for 37: 90 times
    the double nearest to 0.7 is just below 63.  An artillery with 84
    hits a tank with 56 for 55 and leaves it 1 hit point. *)
Example attackDamage_rounds_down :
  TD.attackDamage (TD.UNIT_STATS TD.artillery) (TD.UNIT_STATS TD.infantry)
    (TD.mkUnit (Some TD.artillery) TD.P1 70)
    (TD.mkUnit (Some TD.infantry) TD.P2 100) (TD.TERRAIN_DEFENSE TD.plain)
  = Ok 37
  ∧ TD.attackDamage (TD.UNIT_STATS TD.artillery) (TD.UNIT_STATS TD.tank)
      (TD.mkUnit (Some TD.artillery) TD.P1 84)
      (TD.mkUnit (Some TD.tank) TD.P2 56) (TD.TERRAIN_DEFENSE TD.plain)
    = Ok 55.
Proof. split; vm_compute; reflexivity. Qed.

(** The claim as the specification states it fails in the time-driven
    engine: nothing marks a unit that has attacked.  Player 1's infantry
    attacks the infantry at [(2, 3)], which is left with 70 hit points;
    the attacker's tile is what it was, and the same unit attacks again at
    once, leaving 33. *)
Lemma attacker_is_not_marked :
  ∃ s2 s4 hit hitAgain,
    TD.run TD.UNIT_STATS TD.gridSize Samples.Time.clashStart
      [TD.CellClick 2 2; TD.CellClick 2 3] = Ok s2
    ∧ cell (TD.grid s2) 2 2 = cell Samples.Time.clash 2 2
    ∧ cell (TD.grid s2) 2 3 = Some hit
    ∧ TD.unit hit = Some (TD.mkUnit (Some TD.infantry) TD.P2 70)
    ∧ TD.run TD.UNIT_STATS TD.gridSize s2
        [TD.CellClick 2 2; TD.CellClick 2 3] = Ok s4
    ∧ cell (TD.grid s4) 2 3 = Some hitAgain
    ∧ TD.unit hitAgain = Some (TD.mkUnit (Some TD.infantry) TD.P2 33).
Proof.
  eexists _, _, _, _. split; [vm_compute; reflexivity|].
  split; [reflexivity|]. split; [reflexivity|]. split; [reflexivity|].
  split; [vm_compute; reflexivity|]. by split.
Qed.

End AttackFacts.

(** ** Selection, victory and the turn in the turn-driven engine *)

Module TurnFacts.
Import TurnDriven Census BoardFacts.

(** C8.  Selecting a unit of the other faction, or a unit that has moved
    and attacked, only sets the status text: the grid, the current
    faction, the selection and the cached movement and attack ranges are
    what they were. *)
Theorem failed_selection_keeps_state size s x y t u :
  tileAt (grid s) x y = Ok t → unit t = Some u →
  player u ≠ currentPlayer s ∨ (hasMoved u = true ∧ hasAttacked u = true) →
  ∃ s',
    handleUnitSelect size s x y = Ok s'
    ∧ grid s' = grid s
    ∧ currentPlayer s' = currentPlayer s
    ∧ selectedUnit s' = selectedUnit s
    ∧ movementRange s' = movementRange s
    ∧ attackRange s' = attackRange s
    ∧ gameStatus s'
      = if decide (player u = currentPlayer s) then AlreadyActed
        else ItsTurnOf (currentPlayer s).
Proof.
  intros Ht Hu Hfail. unfold handleUnitSelect. rewrite Ht.
  cbn [mbind result_bind]. rewrite Hu.
  destruct (decide (player u = currentPlayer s)) as [Hown|Hother].
  - rewrite bool_decide_eq_true_2 by done. cbn [negb].
    destruct Hfail as [?|[-> ->]]; [done|]. cbn [andb].
    eexists. split; [reflexivity|]. done.
  - rewrite bool_decide_eq_false_2 by done. cbn [negb].
    eexists. split; [reflexivity|]. done.
Qed.

(** It is Red's turn; Blue's tank, which has moved and attacked, is
    clicked. *)
Lemma failed_selection_keeps_state_witness :
  let s := Samples.Turn.waiting in
  let u := Samples.Turn.spentTank in
  let t := mkTile (5, 5) (TERRAIN_TYPES Plain) (Some u) in
  (tileAt (grid s) 5 5 = Ok t
   ∧ (player u ≠ currentPlayer s
      ∨ (hasMoved u = true ∧ hasAttacked u = true)))
  ∧ ∃ s',
      handleUnitSelect GRID_SIZE s 5 5 = Ok s'
      ∧ grid s' = grid s
      ∧ currentPlayer s' = Red
      ∧ selectedUnit s' = None
      ∧ movementRange s' = []
      ∧ attackRange s' = []
      ∧ gameStatus s' = ItsTurnOf Red.
Proof.
  intros s u t.
  assert (player u ≠ currentPlayer s
          ∨ (hasMoved u = true ∧ hasAttacked u = true)) as Hfail
    by (right; split; reflexivity).
  split; [split; [reflexivity | exact Hfail]|].
  exact (failed_selection_keeps_state GRID_SIZE s 5 5 t u
           eq_refl eq_refl Hfail).
Defined.

(** Case analysis on a call whose result is bound. *)
Tactic Notation "on_result" constr(c) "as" simple_intropattern(x) :=
  destruct c as [x|]; cbn [mbind result_bind defined]; try done.

(** No handler reads the status text. *)
Lemma step_ignores_status size s m e :
  alike (step size (setGameStatus m s) e) (step size s e).
Proof.
  destruct s as [g selected current moves attacks status].
  unfold setGameStatus.
  cbn [grid selectedUnit currentPlayer movementRange attackRange].
  assert (∀ m1 m2 x y,
    alike (handleUnitSelect size (mkState g selected current moves attacks m1)
             x y)
          (handleUnitSelect size (mkState g selected current moves attacks m2)
             x y)) as Hselect.
  { intros m1 m2 x y. unfold handleUnitSelect. cbn [grid currentPlayer].
    on_result (tileAt g x y) as t.
    destruct (unit t) as [u|]; [|by repeat split].
    destruct (negb _); [by repeat split|].
    destruct (hasMoved u && hasAttacked u); [by repeat split|].
    destruct (negb (hasMoved u)).
    - on_result (calculateMovementRange size g u) as range_.
    - destruct (negb (hasAttacked u) && _); [|by repeat split].
      on_result (calculateAttackRange size g u) as range_. }
  assert (∀ m1 m2 x y o1 o2, sameButStatus o1 o2 →
    alike (selectOwn size (mkState g selected current moves attacks m1)
             x y o1)
          (selectOwn size (mkState g selected current moves attacks m2)
             x y o2)) as Hown.
  { intros m1 m2 x y o1 o2 Ho. unfold selectOwn, ownUnitAt.
    cbn [grid currentPlayer]. on_result (tileAt g x y) as t.
    destruct (unit t) as [u|]; [destruct (bool_decide _)|];
      solve [apply Hselect | done]. }
  destruct e as [x y|]; cbn [step].
  - unfold handleTileClick.
    cbn [selectedUnit movementRange attackRange].
    destruct selected as [u|]; [|by apply Hown; repeat split].
    destruct (negb (hasMoved u) && inRange moves x y).
    { unfold moveUnit. cbn [grid]. destruct (position u) as [oldX oldY].
      on_result (setUnit g oldX oldY None) as grid1.
      on_result (setUnit grid1 x y (Some (movedTo (x, y) u))) as grid2.
      destruct (0 <? Board.attackRange _); [|by repeat split].
      on_result (calculateAttackRange size grid2 (movedTo (x, y) u))
        as range_.
      destruct (0 <? length range_)%nat; by repeat split. }
    destruct (negb (hasAttacked u) && inRange attacks x y).
    { unfold attackUnit. cbn [grid].
      on_result (tileAt g x y) as target.
      on_result (unit target) as defender.
      destruct (position u) as [ax ay].
      on_result (setUnit g ax ay (Some (withHasAttacked true u))) as grid1.
      match goal with
      | |- context [setUnit grid1 x y ?o] =>
          on_result (setUnit grid1 x y o) as grid2
      end.
      on_result (countUnits size grid2) as unitsLeft. cbn [fst snd].
      destruct (unitsLeft.1 =? 0); [by repeat split|].
      destruct (unitsLeft.2 =? 0); by repeat split. }
    apply Hown. by repeat split.
  - by repeat split.
Qed.

(** C7, as the engine has it.  When a resolved attack leaves Red without
    units the status text becomes 'Blue wins!', and when it leaves Blue
    without units, 'Red wins!'.  The match has no terminal state and no
    reset: no handler reads the status text, so that every later command
    does what it would do under any other text, and End Turn passes the
    turn. *)
Theorem victory_is_a_status_text size :
  (∀ s attacker x y target defender ground,
     shaped size size (grid s) →
     cell (grid s) x y = Some target → unit target = Some defender →
     cell (grid s) (position attacker).1 (position attacker).2
     = Some ground →
     ∃ s',
       attackUnit size s attacker x y = Ok s'
       ∧ (liveUnits size (grid s') Red = 0%nat → gameStatus s' = Wins Blue)
       ∧ (liveUnits size (grid s') Red ≠ 0%nat →
          liveUnits size (grid s') Blue = 0%nat →
          gameStatus s' = Wins Red))
  ∧ (∀ s m e, alike (step size (setGameStatus m s) e) (step size s e))
  ∧ (∀ s winner,
       ∃ s',
         step size (setGameStatus (Wins winner) s) EndTurn = Ok s'
         ∧ currentPlayer s' = other (currentPlayer s)
         ∧ gameStatus s' = TurnOf (other (currentPlayer s))).
Proof.
  split; [|split].
  - intros s attacker x y target defender ground Hgrid Htarget Hdefender
      Hground.
    destruct (attackUnit_resolved size s Hgrid attacker x y target defender
                ground Htarget Hdefender Hground)
      as (s' & Hattack & _ & _ & _ & _ & _ & _ & Hstatus).
    exists s'. split; [exact Hattack|]. rewrite Hstatus.
    split; [intros Hred | intros Hred Hblue];
      repeat case_decide; done.
  - apply step_ignores_status.
  - intros s winner. eexists. split; [reflexivity|]. done.
Qed.

(** Red's artillery destroys Blue's last unit in [Samples.Turn.lastStand]. *)
Lemma victory_is_a_status_text_witness :
  let s := Samples.Turn.lastStand in
  let attacker := Samples.Turn.redArtillery in
  let defender := Samples.Turn.lastBlue in
  let target := mkTile (1, 2) (TERRAIN_TYPES Plain) (Some defender) in
  let ground := mkTile (1, 1) (TERRAIN_TYPES Plain) (Some attacker) in
  (shaped 10 10 (grid s)
   ∧ cell (grid s) 1 2 = Some target
   ∧ cell (grid s) 1 1 = Some ground)
  ∧ ∃ s',
      attackUnit 10 s attacker 1 2 = Ok s'
      ∧ (liveUnits 10 (grid s') Red = 0%nat → gameStatus s' = Wins Blue)
      ∧ (liveUnits 10 (grid s') Red ≠ 0%nat →
         liveUnits 10 (grid s') Blue = 0%nat →
         gameStatus s' = Wins Red).
Proof.
  intros s attacker defender target ground.
  assert (shaped 10 10 (grid s)) as Hs
    by (split; [reflexivity | repeat constructor]).
  split; [split; [exact Hs | split; reflexivity]|].
  exact (proj1 (victory_is_a_status_text 10) s attacker 1 2 target defender
           ground Hs eq_refl eq_refl eq_refl).
Defined.

(** The claim as the specification states it fails: after the attack that
    destroys Blue's last unit the text is 'Red wins!', and the next
    commands are accepted all the same.  End Turn passes the turn to Blue,
    a second End Turn passes it back, and a click selects Red's
    artillery. *)
Lemma commands_after_victory :
  ∃ s1 s2 s3,
    step GRID_SIZE Samples.Turn.lastStand (TileClick 1 2) = Ok s1
    ∧ gameStatus s1 = Wins Red
    ∧ liveUnits GRID_SIZE (grid s1) Blue = 0%nat
    ∧ step GRID_SIZE s1 EndTurn = Ok s2
    ∧ currentPlayer s2 = Blue
    ∧ gameStatus s2 = TurnOf Blue
    ∧ run GRID_SIZE s2 [EndTurn; TileClick 1 1] = Ok s3
    ∧ currentPlayer s3 = Red
    ∧ gameStatus s3 = SelectTile
    ∧ ∃ u, selectedUnit s3 = Some u ∧ position u = (1, 1).
Proof.
  eexists _, _, _. split; [vm_compute; reflexivity|].
  split; [reflexivity|]. split; [vm_compute; reflexivity|].
  split; [vm_compute; reflexivity|]. split; [reflexivity|].
  split; [reflexivity|]. split; [vm_compute; reflexivity|].
  split; [reflexivity|]. split; [reflexivity|].
  eexists. split; reflexivity.
Qed.

End TurnFacts.

(** ** Action points of the time-driven engine *)

Module RecoveryFacts.
Import TimeDriven.

(** What one tick of the recovery effect does for a player. *)
Lemma recoveryTick_player s now p :
  let due :=
    (AP_RECOVERY_INTERVAL <=? now - get (lastApRecovery s) p)
    && (get (actionPoints s) p <? MAX_ACTION_POINTS) in
  get (actionPoints (recoveryTick s now)) p
  = (if due then Z.min MAX_ACTION_POINTS (get (actionPoints s) p + 1)
     else get (actionPoints s) p)
  ∧ get (lastApRecovery (recoveryTick s now)) p
    = (if due then now else get (lastApRecovery s) p).
Proof.
  destruct s as [g [a1 a2] sel vm va gold menu cell_ cur [l1 l2] time].
  unfold recoveryTick. cbn [foldl]. unfold recoverPlayer.
  cbn [actionPoints lastApRecovery timeUntilNextAP get set forP1 forP2].
  destruct ((AP_RECOVERY_INTERVAL <=? now - l1)
            && (a1 <? MAX_ACTION_POINTS)) eqn:H1;
    destruct ((AP_RECOVERY_INTERVAL <=? now - l2)
              && (a2 <? MAX_ACTION_POINTS)) eqn:H2;
    destruct p; cbn; rewrite ?H1, ?H2; done.
Qed.

(** A click spends at most one action point of the current player, and
    only if there is one. *)
Lemma handleCellClick_spends STATS sz s x y s' :
  handleCellClick STATS sz s x y = Ok s' →
  actionPoints s' = actionPoints s
  ∨ (1 ≤ get (actionPoints s) (currentPlayer s)
     ∧ actionPoints s'
       = set (actionPoints s) (currentPlayer s)
           (get (actionPoints s) (currentPlayer s) - 1)).
Proof.
  assert (∀ s0 t s1, actionPoints s0 = actionPoints s →
            selectClicked STATS sz s0 t x y = Ok s1 →
            actionPoints s1 = actionPoints s) as Hselect.
  { intros s0 t s1 Hs0. unfold selectClicked.
    destruct (unit t); [|by intros [= <-]].
    destruct (calculateValidMoves _ _ _ _ _); [|done].
    destruct (calculateValidAttacks _ _ _ _ _); [|done].
    by intros [= <-]. }
  assert (∀ act s1, spendActionPoint s act = Ok s1 →
            actionPoints s1 = actionPoints s
            ∨ (1 ≤ get (actionPoints s) (currentPlayer s)
               ∧ actionPoints s1
                 = set (actionPoints s) (currentPlayer s)
                     (get (actionPoints s) (currentPlayer s) - 1)))
    as Hspend.
  { intros act s1. unfold spendActionPoint.
    destruct (Z.leb_spec 1 (get (actionPoints s) (currentPlayer s))).
    - destruct act; [|done]. intros [= <-]. by right.
    - intros [= <-]. by left. }
  unfold handleCellClick.
  destruct (index2 (grid s) x y) as [clicked|]; [|done].
  cbn [mbind result_bind].
  destruct (showBuyMenu s); [intros [= <-]; by left|].
  destruct (defined clicked) as [clickedTile|]; [|done].
  cbn [mbind result_bind].
  destruct (_ && _ && _); [intros [= <-]; by left|].
  destruct (selectedCell s) as [[sx sy]|].
  - destruct (tileAt (grid s) sx sy) as [selectedTile|]; [|done].
    cbn [mbind result_bind].
    destruct (index2 (validMoves s) x y) as [canMove|]; [|done].
    cbn [mbind result_bind].
    destruct (_ && _ && _); [apply Hspend|].
    destruct (index2 (validAttacks s) x y) as [canAttack|]; [|done].
    cbn [mbind result_bind].
    destruct (_ && _); [apply Hspend|].
    intros Hs'. left. by apply (Hselect (clearSelection s) clickedTile).
  - intros Hs'. left. by apply (Hselect s clickedTile).
Qed.

(** Every event keeps the action points of both players between 0 and
    the cap. *)
Lemma step_capped STATS sz s e s' :
  (∀ p, 0 ≤ get (actionPoints s) p ≤ MAX_ACTION_POINTS) →
  step STATS sz s e = Ok s' →
  ∀ p, 0 ≤ get (actionPoints s') p ≤ MAX_ACTION_POINTS.
Proof.
  intros Hcap. destruct e as [x y|t| | |now]; cbn [step].
  - intros [->|[Hone ->]]%handleCellClick_spends; [done|].
    intros p. pose proof (Hcap p). pose proof (Hcap (currentPlayer s)).
    destruct p, (currentPlayer s); cbn in *; lia.
  - unfold buyUnit.
    destruct (buyMenuCell s) as [[bx by_]|]; [|by intros [= <-]].
    destruct t as [n|]; [|by intros [= <-]].
    destruct (_ <? _); [by intros [= <-]|].
    destruct (tileAt (grid s) bx by_); [|done]. cbn [mbind result_bind].
    destruct (assign2 _ _ _ _); [|done]. by intros [= <-].
  - by intros [= <-].
  - by intros [= <-].
  - intros [= <-] p.
    destruct (recoveryTick_player s now p) as [-> _].
    pose proof (Hcap p). unfold MAX_ACTION_POINTS in *.
    destruct (_ && _) eqn:Hdue; lia.
Qed.

Lemma run_capped STATS sz events : ∀ s s',
  (∀ p, 0 ≤ get (actionPoints s) p ≤ MAX_ACTION_POINTS) →
  run STATS sz s events = Ok s' →
  ∀ p, 0 ≤ get (actionPoints s') p ≤ MAX_ACTION_POINTS.
Proof.
  unfold run. induction events as [|e events IH]; intros s s' Hcap;
    cbn [foldlM].
  - by intros [= <-].
  - destruct (step STATS sz s e) as [s1|] eqn:Hstep; [|done].
    cbn [mbind result_bind]. apply IH.
    by apply (step_capped STATS sz s e s1).
Qed.

(** C9.  A faction at 5 action points whose last recovery was at [t0]
    has 6 after a tick at [t0 + 60000], which also records that time, and
    still 5 after a tick at [t0 + 59999]; a tick adds at most one point;
    and in every state the engine reaches from the start of a match the
    action points stay between 0 and the cap of 10. *)
Theorem action_point_recovery s p t0 :
  get (actionPoints s) p = 5 → get (lastApRecovery s) p = t0 →
  (get (actionPoints (recoveryTick s (t0 + 60000))) p = 6
   ∧ get (lastApRecovery (recoveryTick s (t0 + 60000))) p = t0 + 60000)
  ∧ (get (actionPoints (recoveryTick s (t0 + 59999))) p = 5
     ∧ get (lastApRecovery (recoveryTick s (t0 + 59999))) p = t0)
  ∧ (∀ s0 now q,
       get (actionPoints s0) q
       ≤ get (actionPoints (recoveryTick s0 now)) q
       ≤ get (actionPoints s0) q + 1)
  ∧ (∀ STATS sz grid start events s',
       run STATS sz (initialState grid start) events = Ok s' →
       ∀ q, 0 ≤ get (actionPoints s') q ≤ MAX_ACTION_POINTS).
Proof.
  intros Hpoints Hlast. split; [|split; [|split]].
  - destruct (recoveryTick_player s (t0 + 60000) p) as [-> ->].
    rewrite Hpoints, Hlast.
    replace (t0 + 60000 - t0) with 60000 by lia. done.
  - destruct (recoveryTick_player s (t0 + 59999) p) as [-> ->].
    rewrite Hpoints, Hlast.
    replace (t0 + 59999 - t0) with 59999 by lia. done.
  - intros s0 now q. destruct (recoveryTick_player s0 now q) as [-> _].
    unfold MAX_ACTION_POINTS.
    destruct (_ && _) eqn:Hdue; [|lia].
    apply andb_true_iff in Hdue as [_ Hlt%Z.ltb_lt]. lia.
  - intros STATS sz grid start events s' Hrun.
    apply (run_capped STATS sz events (initialState grid start) s');
      [|done].
    intros []; cbn; unfold MAX_ACTION_POINTS; lia.
Qed.

(** Player 1 at 5 action points, last recovered at time 1000. *)
Lemma action_point_recovery_witness :
  let s := Samples.Time.tired in
  (get (actionPoints s) P1 = 5 ∧ get (lastApRecovery s) P1 = 1000)
  ∧ (get (actionPoints (recoveryTick s 61000)) P1 = 6
     ∧ get (lastApRecovery (recoveryTick s 61000)) P1 = 61000)
  ∧ (get (actionPoints (recoveryTick s 60999)) P1 = 5
     ∧ get (lastApRecovery (recoveryTick s 60999)) P1 = 1000).
Proof.
  intros s. split; [split; reflexivity|].
  destruct (action_point_recovery s P1 1000 eq_refl eq_refl)
    as (Hdue & Hearly & _).
  split; [exact Hdue | exact Hearly].
Defined.

End RecoveryFacts.

(** ** Capture of cities *)

Module CaptureFacts.
Import TurnDriven CityCapture Census.

Section Cells.
Context {A : Type}.
Implicit Types (a : list (list A)) (P : A → Prop).

Lemma index2_Forall P a x y v :
  Forall (Forall P) a → index2 a x y = Ok (Some v) → P v.
Proof.
  intros Ha. unfold index2.
  destruct (index a y) as [row|] eqn:Hrow; [|done].
  cbn [defined mbind result_bind]. intros [= Hv].
  apply index_Some in Hrow as [_ Hrow]. apply index_Some in Hv as [_ Hv].
  by eapply Forall_lookup_1; [eapply Forall_lookup_1|].
Qed.

Lemma assign2_Forall P a x y v a' :
  Forall (Forall P) a → P v → assign2 a x y v = Ok a' →
  Forall (Forall P) a'.
Proof.
  intros Ha Hv. unfold assign2.
  destruct (index a y) as [row|] eqn:Hrow; [|done].
  cbn [defined mbind result_bind]. destruct (_ && _); [|done].
  intros [= <-]. apply index_Some in Hrow as [_ Hrow].
  apply Forall_insert; [done|]. apply Forall_insert; [|done].
  by eapply Forall_lookup_1.
Qed.

(** A write where there is an element succeeds and is read back. *)
Lemma assign2_read a x y v t :
  index2 a x y = Ok (Some t) →
  ∃ a', assign2 a x y v = Ok a' ∧ index2 a' x y = Ok (Some v).
Proof.
  unfold index2, assign2.
  destruct (index a y) as [row|] eqn:Hrow; [|done].
  cbn [defined mbind result_bind]. intros [= Ht].
  pose proof (index_bound _ _ _ Ht) as Hx.
  pose proof (index_bound _ _ _ Hrow) as Hy.
  destruct (Z.leb_spec 0 x); [|lia].
  destruct (Z.ltb_spec x (Z.of_nat (length row))); [|lia].
  cbn [andb]. eexists. split; [done|].
  rewrite (index_nonneg _ y) by lia.
  rewrite list_lookup_insert_eq by lia. cbn [defined mbind result_bind].
  rewrite (index_nonneg _ x) by lia.
  by rewrite list_lookup_insert_eq by lia.
Qed.

End Cells.

Lemma tileAt_index2 g x y t :
  tileAt g x y = Ok t ↔ index2 g x y = Ok (Some t).
Proof.
  unfold tileAt. destruct (index2 g x y) as [[t'|]|]; cbn; naive_solver.
Qed.

(** *** What [captureCity] does on a city *)

Lemma captureCity_infantry s u x y t :
  tileAt (grid (game s)) x y = Ok t →
  isCity (terrain t) = true → type u = Infantry →
  let city := resetIfEnemy u (terrain t) in
  let progress := incr (captureProgress city) 50 in
  let captured := atLeast progress 100 in
  let tile' :=
    mkTile (tilePosition t)
      (if captured
       then withProgress (Num 0) (withOwner (Some (player u)) city)
       else withProgress progress city)
      (Some (withHasAttacked true u)) in
  ∃ g', assign2 (grid (game s)) x y tile' = Ok g'
    ∧ tileAt g' x y = Ok tile'
    ∧ captureCity s u x y
      = Ok (setGame
              (setSelectedUnit (Some (withHasAttacked true u))
                 (setGrid g'
                    (setGameStatus
                       (if captured then Captured (player u)
                        else Capturing progress) (game s)))) s,
            true).
Proof.
  intros Ht Hcity Hu city progress captured tile'.
  destruct (assign2_read (grid (game s)) x y tile' t) as (g' & Hg' & Hread);
    [by apply tileAt_index2|].
  exists g'. split; [done|]. split; [by apply tileAt_index2|].
  unfold captureCity. rewrite Ht. cbn [mbind result_bind].
  rewrite Hcity, bool_decide_eq_true_2 by done. cbn [negb].
  replace (0 <? 50) with true by done.
  fold city. fold progress. fold captured. fold tile'.
  by rewrite Hg'.
Qed.

Lemma captureCity_others s u x y t :
  tileAt (grid (game s)) x y = Ok t →
  isCity (terrain t) = true → type u ≠ Infantry →
  ∃ g', setTerrain (grid (game s)) x y (resetIfEnemy u (terrain t)) = Ok g'
    ∧ tileAt g' x y
      = Ok (mkTile (tilePosition t) (resetIfEnemy u (terrain t)) (unit t))
    ∧ captureCity s u x y = Ok (setGame (setGrid g' (game s)) s, false).
Proof.
  intros Ht Hcity Hu.
  destruct (assign2_read (grid (game s)) x y
              (mkTile (tilePosition t) (resetIfEnemy u (terrain t)) (unit t))
              t) as (g' & Hg' & Hread); [by apply tileAt_index2|].
  assert (setTerrain (grid (game s)) x y (resetIfEnemy u (terrain t))
          = Ok g') as Hset.
  { unfold setTerrain. by rewrite Ht. }
  exists g'. split; [done|]. split; [by apply tileAt_index2|].
  unfold captureCity. rewrite Ht. cbn [mbind result_bind].
  rewrite Hcity, bool_decide_eq_false_2 by done. cbn [negb].
  replace (0 <? 0) with false by done. by rewrite Hset.
Qed.

(** On a city whose progress is a number the function counts as its
    comments say: 50 for an infantry, from 0 if the city is an enemy's,
    and the city changes hands at 100. *)
Lemma captureCity_counts s u x y t n :
  tileAt (grid (game s)) x y = Ok t →
  isCity (terrain t) = true → type u = Infantry →
  captureProgress (terrain t) = Num n →
  let base :=
    match owner (terrain t) with
    | Some o => if bool_decide (o = player u) then n else 0
    | None => n
    end in
  ∃ s' t',
    captureCity s u x y = Ok (s', true)
    ∧ tileAt (grid (game s')) x y = Ok t'
    ∧ unit t' = Some (withHasAttacked true u)
    ∧ selectedUnit (game s') = Some (withHasAttacked true u)
    ∧ if 100 <=? base + 50
      then owner (terrain t') = Some (player u)
           ∧ captureProgress (terrain t') = Num 0
           ∧ gameStatus (game s') = Captured (player u)
      else owner (terrain t') = owner (terrain t)
           ∧ captureProgress (terrain t') = Num (base + 50)
           ∧ gameStatus (game s') = Capturing (Num (base + 50)).
Proof.
  intros Ht Hcity Hu Hn base.
  destruct (captureCity_infantry s u x y t Ht Hcity Hu)
    as (g' & _ & Hread & ->).
  assert (captureProgress (resetIfEnemy u (terrain t)) = Num base
          ∧ owner (resetIfEnemy u (terrain t)) = owner (terrain t))
    as [Hbase Howner].
  { unfold resetIfEnemy, base.
    destruct (owner (terrain t)) as [o|] eqn:Ho; [|by rewrite Ho].
    case_bool_decide; [by rewrite Ho|done]. }
  rewrite Hbase in *. cbn [incr atLeast] in *.
  eexists _, _. split; [done|]. split; [exact Hread|].
  destruct (100 <=? base + 50); cbn; repeat split; done.
Qed.

(** *** No city is ever given a numeric progress *)

Lemma bare_TERRAIN_TYPES k : bare (TERRAIN_TYPES k).
Proof. by destruct k. Qed.

Lemma tileAt_bare g x y t :
  unclaimed g → tileAt g x y = Ok t → bare (terrain t).
Proof.
  intros Hg Ht%tileAt_index2.
  by apply (index2_Forall (λ t, bare (terrain t)) g x y t).
Qed.

Lemma setUnit_unclaimed g x y o g' :
  unclaimed g → setUnit g x y o = Ok g' → unclaimed g'.
Proof.
  intros Hg. unfold setUnit.
  destruct (tileAt g x y) as [t|] eqn:Ht; [|done].
  cbn [mbind result_bind]. apply assign2_Forall; [done|].
  cbn [terrain]. by apply (tileAt_bare g x y).
Qed.

Lemma setTerrain_unclaimed g x y c g' :
  unclaimed g → bare c → setTerrain g x y c = Ok g' → unclaimed g'.
Proof.
  intros Hg Hc. unfold setTerrain.
  destruct (tileAt g x y) as [t|] eqn:Ht; [|done].
  cbn [mbind result_bind]. by apply assign2_Forall.
Qed.

Lemma resetIfEnemy_bare u c : bare c → resetIfEnemy u c = c.
Proof. intros [Ho _]. unfold resetIfEnemy. by rewrite Ho. Qed.

Lemma abandon_bare u c : bare c → abandon u c = c.
Proof.
  intros [_ Hp]. unfold abandon.
  destruct (captureProgress c) as [|n|] eqn:Hc; [| by destruct (Hp n) |];
    cbn [above]; by rewrite andb_false_r.
Qed.

Lemma incr_bare c : bare c → incr (captureProgress c) 50 = NaN.
Proof.
  intros [_ Hp]. by destruct (captureProgress c) as [|n|]; [|destruct (Hp n)|].
Qed.

Lemma attackUnit_unclaimed size s attacker x y s' :
  unclaimed (grid s) →
  TurnDriven.attackUnit size s attacker x y = Ok s' →
  unclaimed (grid s').
Proof.
  intros Hg. unfold TurnDriven.attackUnit.
  destruct (tileAt (grid s) x y) as [target|]; [|done].
  cbn [mbind result_bind].
  destruct (defined (unit target)) as [defender|]; [|done].
  cbn [mbind result_bind]. destruct (position attacker) as [ax ay].
  destruct (setUnit (grid s) ax ay _) as [g1|] eqn:Hg1; [|done].
  cbn [mbind result_bind].
  destruct (setUnit g1 x y _) as [g2|] eqn:Hg2; [|done].
  cbn [mbind result_bind].
  destruct (countUnits size g2) as [unitsLeft|]; [|done].
  cbn [mbind result_bind].
  assert (unclaimed g2) as Hg2'.
  { eapply setUnit_unclaimed; [|exact Hg2].
    eapply setUnit_unclaimed; [|exact Hg1]. done. }
  destruct (_ =? 0); [by intros [= <-]|].
  destruct (_ =? 0); by intros [= <-].
Qed.

Lemma endTurn_unclaimed s :
  unclaimed (grid s) → unclaimed (grid (TurnDriven.endTurn s)).
Proof.
  intros Hg. unfold TurnDriven.endTurn. cbn.
  apply Forall_fmap. eapply Forall_impl; [exact Hg|].
  intros row Hrow. cbn. apply Forall_fmap.
  eapply Forall_impl; [exact Hrow|].
  intros t Ht. cbn. destruct (unit t); [|done].
  by case_bool_decide.
Qed.

Lemma handleUnitSelect_grid s x y s' :
  handleUnitSelect s x y = Ok s' → grid (game s') = grid (game s).
Proof.
  unfold handleUnitSelect.
  destruct (tileAt (grid (game s)) x y) as [t|]; [|done].
  cbn [mbind result_bind].
  destruct (unit t) as [u|]; [|by intros [= <-]].
  destruct (negb (bool_decide _)); [by intros [= <-]|].
  destruct (hasMoved u && hasAttacked u); [by intros [= <-]|].
  destruct (negb (hasMoved u)).
  - destruct (calculateMovementRange _ _ _); [|done]. by intros [= <-].
  - destruct (_ && _); [|by intros [= <-]].
    destruct (calculateAttackRange _ _ _); [|done]. by intros [= <-].
Qed.

Lemma selectOwn_grid s x y otherwise s' :
  grid (game otherwise) = grid (game s) →
  selectOwn s x y otherwise = Ok s' → grid (game s') = grid (game s).
Proof.
  intros Ho. unfold selectOwn.
  destruct (ownUnitAt (game s) x y) as [[]|]; cbn [mbind result_bind].
  - apply handleUnitSelect_grid.
  - by intros [= <-].
  - done.
Qed.

Lemma moveUnit_unclaimed s u x y s' :
  unclaimed (grid (game s)) → moveUnit s u x y = Ok s' →
  unclaimed (grid (game s')).
Proof.
  intros Hg. unfold moveUnit. destruct (position u) as [oldX oldY].
  destruct (setUnit (grid (game s)) oldX oldY None) as [g1|] eqn:Hg1;
    [|done].
  cbn [mbind result_bind].
  pose proof (setUnit_unclaimed _ _ _ _ _ Hg Hg1) as H1.
  destruct (tileAt g1 oldX oldY) as [oldTile|] eqn:Hold; [|done].
  cbn [mbind result_bind].
  destruct (setTerrain g1 oldX oldY _) as [g2|] eqn:Hg2; [|done].
  cbn [mbind result_bind].
  assert (unclaimed g2) as H2.
  { eapply setTerrain_unclaimed; [exact H1| |exact Hg2].
    pose proof (tileAt_bare _ _ _ _ H1 Hold) as Hbare.
    by rewrite abandon_bare. }
  destruct (setUnit g2 x y _) as [g3|] eqn:Hg3; [|done].
  cbn [mbind result_bind].
  pose proof (setUnit_unclaimed _ _ _ _ _ H2 Hg3) as H3.
  destruct (0 <? _); [|by intros [= <-]].
  destruct (calculateAttackRange _ _ _); [|done].
  cbn [mbind result_bind].
  destruct (0 <? _)%nat; by intros [= <-].
Qed.

Lemma captureCity_unclaimed s u x y s' done_ :
  unclaimed (grid (game s)) → captureCity s u x y = Ok (s', done_) →
  unclaimed (grid (game s')).
Proof.
  intros Hg. unfold captureCity.
  destruct (tileAt (grid (game s)) x y) as [t|] eqn:Ht; [|done].
  cbn [mbind result_bind].
  pose proof (tileAt_bare _ _ _ _ Hg Ht) as Hbare.
  destruct (negb (isCity (terrain t))); [by intros [= <- _]|].
  rewrite (resetIfEnemy_bare u _ Hbare).
  destruct (0 <? _) eqn:Hamount.
  - case_bool_decide; [|done].
    rewrite (incr_bare _ Hbare). cbn [atLeast].
    destruct (assign2 _ _ _ _) as [g'|] eqn:Hg'; [|done].
    cbn [mbind result_bind]. intros [= <- _]. cbn.
    eapply assign2_Forall; [exact Hg| |exact Hg'].
    destruct Hbare as [Ho _]. by split.
  - destruct (setTerrain _ _ _ _) as [g'|] eqn:Hg'; [|done].
    cbn [mbind result_bind]. intros [= <- _]. cbn.
    by eapply setTerrain_unclaimed.
Qed.

Lemma handleTileClick_unclaimed s x y s' :
  unclaimed (grid (game s)) → handleTileClick s x y = Ok s' →
  unclaimed (grid (game s')).
Proof.
  intros Hg. unfold handleTileClick.
  destruct (tryCapture s x y) as [[s1 done_]|] eqn:Htry; [|done].
  cbn [mbind result_bind].
  assert (unclaimed (grid (game s1))) as H1.
  { revert Htry. unfold tryCapture.
    destruct (selectedUnit (game s)) as [u|]; [|by intros [= <- _]].
    destruct (_ && _); [|by intros [= <- _]].
    destruct (tileAt _ _ _) as [t|]; [|done]. cbn [mbind result_bind].
    destruct (_ && _); [|by intros [= <- _]].
    by apply captureCity_unclaimed. }
  destruct done_; [by intros [= <-]|].
  destruct (selectedUnit (game s1)) as [u|].
  - destruct (_ && _); [by apply moveUnit_unclaimed|].
    destruct (_ && _).
    + unfold attackUnit.
      destruct (TurnDriven.attackUnit _ _ _ _ _) as [g|] eqn:Hattack;
        [|done].
      cbn [mbind result_bind]. intros [= <-]. cbn.
      by eapply attackUnit_unclaimed.
    + intros Hs'.
      by rewrite (selectOwn_grid s1 x y
                    (setGame (clearSelection (game s1)) s1) s' eq_refl Hs').
  - intros Hs'. by rewrite (selectOwn_grid s1 x y s1 s' eq_refl Hs').
Qed.

Lemma endTurn_unclaimed' s s' :
  unclaimed (grid (game s)) → endTurn s = Ok s' →
  unclaimed (grid (game s')).
Proof.
  intros Hg. unfold endTurn.
  destruct (cityIncome _ _) as [income|]; [|done].
  cbn [mbind result_bind].
  destruct (firstUnitOf _ _) as [found|]; [|done].
  cbn [mbind result_bind]. intros [= <-].
  pose proof (endTurn_unclaimed _ Hg).
  destruct found as [[fx fy]|]; by destruct (0 <? income).
Qed.

Lemma run_unclaimed events : ∀ s s',
  unclaimed (grid (game s)) → run s events = Ok s' →
  unclaimed (grid (game s')).
Proof.
  unfold run. induction events as [|e events IH]; intros s s' Hg;
    cbn [foldlM].
  - by intros [= <-].
  - destruct (step s e) as [s1|] eqn:Hstep; [|done].
    cbn [mbind result_bind]. apply IH.
    destruct e as [x y|]; cbn [step] in Hstep.
    + by eapply handleTileClick_unclaimed.
    + by eapply endTurn_unclaimed'.
Qed.

Lemma generateInitialGrid_unclaimed layout :
  unclaimed (generateInitialGrid layout).
Proof.
  unfold generateInitialGrid, unclaimed.
  apply Forall_fmap, Forall_true. intros y. cbn.
  apply Forall_fmap, Forall_true. intros x. cbn.
  apply bare_TERRAIN_TYPES.
Qed.

Lemma initializeGame_unclaimed layout ids s :
  initializeGame layout ids = Ok s → unclaimed (grid (game s)).
Proof.
  unfold initializeGame.
  destruct (foldlM _ _ _) as [g|] eqn:Hg; [|done].
  cbn [mbind result_bind]. intros [= <-]. cbn.
  revert Hg. generalize (generateInitialGrid_unclaimed layout).
  generalize (generateInitialGrid layout). generalize (initialUnits ids).
  intros units. revert g.
  induction units as [|u units IH]; intros g g0 Hg0; cbn [foldlM].
  - by intros [= <-].
  - destruct (setUnit g0 _ _ _) as [g1|] eqn:Hg1; [|done].
    cbn [mbind result_bind]. apply IH.
    by eapply setUnit_unclaimed.
Qed.

(** C5.  In a match no capture ever completes.  The cities of the board
    that [initializeGame] builds have neither an owner nor a capture
    progress, and whatever the layout and the events played, every tile
    of every state reached is still without owner and without a progress
    that is a number.  On such a state an infantry that captures the city
    it stands on does use its action -- the call returns true and the
    unit on the tile is the unit with [hasAttacked] set -- but the city
    is left without owner, its progress is [NaN], and the status reads
    [Capturing NaN]. *)
Theorem captures_never_complete layout ids events s0 s :
  initializeGame layout ids = Ok s0 →
  run s0 events = Ok s →
  (∀ x y t, tileAt (grid (game s)) x y = Ok t →
     owner (terrain t) = None ∧ ∀ n, captureProgress (terrain t) ≠ Num n)
  ∧ (∀ u x y t,
       tileAt (grid (game s)) x y = Ok t →
       isCity (terrain t) = true → type u = Infantry →
       ∃ s',
         captureCity s u x y = Ok (s', true)
         ∧ tileAt (grid (game s')) x y
           = Ok (mkTile (tilePosition t) (withProgress NaN (terrain t))
                   (Some (withHasAttacked true u)))
         ∧ owner (withProgress NaN (terrain t)) = None
         ∧ gameStatus (game s') = Capturing NaN).
Proof.
  intros Hs0 Hrun.
  assert (unclaimed (grid (game s))) as Hg.
  { eapply run_unclaimed; [|exact Hrun].
    by eapply initializeGame_unclaimed. }
  split.
  - intros x y t Ht. by apply (tileAt_bare _ _ _ _ Hg Ht).
  - intros u x y t Ht Hcity Hu.
    pose proof (tileAt_bare _ _ _ _ Hg Ht) as Hbare.
    destruct (captureCity_infantry s u x y t Ht Hcity Hu)
      as (g' & _ & Hread & Hcapture).
    rewrite (resetIfEnemy_bare u _ Hbare) in Hread, Hcapture.
    rewrite (incr_bare _ Hbare) in Hread, Hcapture.
    cbn [atLeast] in Hread, Hcapture.
    eexists. split; [exact Hcapture|]. split; [exact Hread|].
    split; [|done]. by destruct Hbare.
Qed.

(** With a progress of 0 on the city, as the uncalled [initializeGrid]
    would set it, the same two captures take it. *)
Example outpost_is_taken :
  (s ← run Samples.Cities.outpost
         [ TileClick 5 5; TileClick 5 5; EndTurn; EndTurn;
           TileClick 5 5; TileClick 5 5 ];
   t ← tileAt (grid (game s)) 5 5;
   Ok (owner (terrain t), captureProgress (terrain t), gameStatus (game s)))
  = Ok (Some Red, Num 0, Captured Red).
Proof. vm_compute. reflexivity. Qed.

(** Red's first infantry walks onto the city next to it and captures
    twice, a turn apart. *)
Lemma captures_never_complete_witness :
  ∃ s0 s t,
    initializeGame Samples.Cities.crossroads Samples.Cities.ids = Ok s0
    ∧ run s0 Samples.Cities.campaign = Ok s
    ∧ tileAt (grid (game s)) 3 1 = Ok t
    ∧ isCity (terrain t) = true
    ∧ option_map hasAttacked (unit t) = Some true
    ∧ gameStatus (game s) = Capturing NaN
    ∧ owner (terrain t) = None
    ∧ captureProgress (terrain t) = NaN.
Proof.
  eexists _, _, _.
  split; [vm_compute; reflexivity|].
  split; [vm_compute; reflexivity|].
  split; [vm_compute; reflexivity|].
  split; [reflexivity|]. split; [reflexivity|]. split; [reflexivity|].
  match goal with
  | |- owner (terrain ?t) = None ∧ _ =>
    destruct (captures_never_complete Samples.Cities.crossroads
                Samples.Cities.ids Samples.Cities.campaign _ _
                ltac:(vm_compute; reflexivity)
                ltac:(vm_compute; reflexivity)) as [Hfree _];
    destruct (Hfree 3 1 t ltac:(vm_compute; reflexivity)) as [Hnone _]
  end.
  split; [exact Hnone | reflexivity].
Defined.

End CaptureFacts.
